(** * Car Rental API

    A shallow embedding of [main.py] and [schemas.py]: the serialisation
    adapter, the seed step, the car search and the booking engine, over a
    model of the Python values they handle and of the document store they
    talk to.

    Layout: the Python runtime pieces the handlers rely on (floats, dates,
    text formatting), BSON values and documents, the store with its query
    language, the handlers themselves, and then the theorems. *)

From Stdlib Require Import ZArith String Ascii List Bool SpecFloat Sorted.
From stdpp Require Import gmap strings list fin_maps pretty.

Local Open Scope Z_scope.

(** ** Outcomes of a handler *)

(** A handler returns a value, raises [HTTPException(status_code, detail)],
    or lets another exception escape ([Fault]: the framework answers with a
    generic server error).  [Unmodelled] marks the inputs on which this
    development does not say what Python or the store would do. *)
Inductive outcome (A : Type) : Type :=
| Ok (a : A)
| HTTPException (status_code : Z) (detail : string)
| Fault
| Unmodelled.

Arguments Ok {A} a.
Arguments HTTPException {A} status_code detail.
Arguments Fault {A}.
Arguments Unmodelled {A}.

Definition outcome_bind {A B} (m : outcome A) (k : A → outcome B) : outcome B :=
  match m with
  | Ok a => k a
  | HTTPException c s => HTTPException c s
  | Fault => Fault
  | Unmodelled => Unmodelled
  end.

Fixpoint outcome_map {A B} (f : A → outcome B) (l : list A) : outcome (list B) :=
  match l with
  | [] => Ok []
  | x :: l' =>
      outcome_bind (f x) (λ y, outcome_bind (outcome_map f l') (λ ys, Ok (y :: ys)))
  end.

(** ** Python floats: IEEE 754 binary64 *)

Module F64.

Definition prec : Z := 53.
Definition emax : Z := 1024.

(** [float(n)] for an integer [n], correctly rounded. *)
Definition of_Z (z : Z) : spec_float := binary_normalize prec emax z 0 false.

Definition mul : spec_float → spec_float → spec_float := SFmul prec emax.
Definition div : spec_float → spec_float → spec_float := SFdiv prec emax.

(** The float nearest to the decimal literal [n / 10^k], as the Python
    reader produces it for literals such as [4.8] (48, 1). *)
Definition of_decimal (n : Z) (k : nat) : spec_float :=
  match n with
  | Z0 => S754_zero false
  | Zpos p => div (S754_finite false p 0) (of_Z (10 ^ Z.of_nat k))
  | Zneg p => div (S754_finite true p 0) (of_Z (10 ^ Z.of_nat k))
  end.

Definition is_zero (x : spec_float) : bool :=
  match x with S754_zero _ => true | _ => false end.

(** The integer nearest to [n / d] for [d > 0], ties going to the even
    neighbour. *)
Definition div_half_even (n d : Z) : Z :=
  let q := n / d in
  let r := n mod d in
  match 2 * r ?= d with
  | Lt => q
  | Gt => q + 1
  | Eq => if Z.even q then q else q + 1
  end.

(** [round(x, 2)].  CPython turns the exact value of [x] into the decimal
    text with two digits after the point that is nearest to it (ties to
    even) and reads that text back as a float; NaN and the infinities
    round to themselves. *)
Definition round2 (x : spec_float) : spec_float :=
  match x with
  | S754_finite s m e =>
      let hundredths :=
        if 0 <=? e then Zpos m * 100 * 2 ^ e
        else div_half_even (Zpos m * 100) (2 ^ (- e)) in
      match hundredths with
      | Zpos h => div (S754_finite s h 0) (of_Z 100)
      | _ => S754_zero s
      end
  | _ => x
  end.

(** The exact value of a float, for comparisons with integers and with
    other floats: [Fin m e] stands for [m * 2^e]. *)
Inductive number : Type :=
| NaN
| NegInf
| Fin (m e : Z)
| PosInf.

Definition to_number (x : spec_float) : number :=
  match x with
  | S754_nan => NaN
  | S754_infinity true => NegInf
  | S754_infinity false => PosInf
  | S754_zero _ => Fin 0 0
  | S754_finite s m e => Fin (if s then Zneg m else Zpos m) e
  end.

(** The store orders NaN below every other number. *)
Definition number_compare (a b : number) : comparison :=
  match a, b with
  | NaN, NaN => Eq
  | NaN, _ => Lt
  | _, NaN => Gt
  | NegInf, NegInf => Eq
  | NegInf, _ => Lt
  | _, NegInf => Gt
  | PosInf, PosInf => Eq
  | PosInf, _ => Gt
  | _, PosInf => Lt
  | Fin m1 e1, Fin m2 e2 =>
      let e := Z.min e1 e2 in
      (m1 * 2 ^ (e1 - e)) ?= (m2 * 2 ^ (e2 - e))
  end.

End F64.

(** ** Text formatting *)

Definition digit_char (d : Z) : ascii :=
  ascii_of_N (48 + Z.to_N d).

(** The [w] lowest decimal digits of [n], most significant first. *)
Fixpoint digits_fixed (w : nat) (n : Z) : string :=
  match w with
  | O => EmptyString
  | S w' => String (digit_char ((n / 10 ^ Z.of_nat w') mod 10)) (digits_fixed w' n)
  end.

(** ["%0wd" % n]: at least [w] characters, padded with zeros after the
    sign. *)
Definition fmt_0d (w : nat) (n : Z) : string :=
  let body (w : nat) (n : Z) : string :=
    if n <? 10 ^ Z.of_nat w then digits_fixed w n else pretty n in
  if n <? 0 then String "-" (body (Nat.pred w) (- n)) else body w n.

(** ** datetime.date and datetime.datetime *)

Record date := Date { year : Z; month : Z; day : Z }.

Record datetime := Datetime {
  dt_year : Z; dt_month : Z; dt_day : Z;
  dt_hour : Z; dt_minute : Z; dt_second : Z; dt_microsecond : Z }.

Definition is_leap (y : Z) : bool :=
  (y mod 4 =? 0) && (negb (y mod 100 =? 0) || (y mod 400 =? 0)).

Definition days_in_month (y m : Z) : Z :=
  match m with
  | 1 => 31 | 2 => if is_leap y then 29 else 28 | 3 => 31 | 4 => 30
  | 5 => 31 | 6 => 30 | 7 => 31 | 8 => 31 | 9 => 30 | 10 => 31
  | 11 => 30 | 12 => 31 | _ => 0
  end.

Definition days_before_year (y : Z) : Z :=
  let y' := y - 1 in y' * 365 + y' / 4 - y' / 100 + y' / 400.

Definition days_before_month (y m : Z) : Z :=
  fold_right Z.add 0 (map (days_in_month y) (map Z.of_nat (seq 1 (Z.to_nat (m - 1))))).

Definition toordinal (d : date) : Z :=
  days_before_year (year d) + days_before_month (year d) (month d) + day d.

(** The dates Python can represent. *)
Definition valid_date (d : date) : bool :=
  (1 <=? year d) && (year d <=? 9999) &&
  (1 <=? month d) && (month d <=? 12) &&
  (1 <=? day d) && (day d <=? days_in_month (year d) (month d)).

(** [(a - b).days]. *)
Definition date_sub_days (a b : date) : Z := toordinal a - toordinal b.

(** Python compares dates as the triples (year, month, day). *)
Fixpoint lex_compare (a b : list Z) : comparison :=
  match a, b with
  | [], [] => Eq
  | [], _ :: _ => Lt
  | _ :: _, [] => Gt
  | x :: a', y :: b' =>
      match x ?= y with
      | Eq => lex_compare a' b'
      | c => c
      end
  end.

Definition date_compare (a b : date) : comparison :=
  lex_compare [year a; month a; day a] [year b; month b; day b].

Definition date_leb (a b : date) : bool :=
  match date_compare a b with Gt => false | _ => true end.

Definition date_isoformat (d : date) : string :=
  fmt_0d 4 (year d) +:+ "-" +:+ fmt_0d 2 (month d) +:+ "-" +:+ fmt_0d 2 (day d).

(** [datetime.isoformat(sep)] of a naive datetime, which is what the driver
    hands back: the microseconds appear only when they are not zero. *)
Definition datetime_format (sep : string) (t : datetime) : string :=
  fmt_0d 4 (dt_year t) +:+ "-" +:+ fmt_0d 2 (dt_month t) +:+ "-" +:+
  fmt_0d 2 (dt_day t) +:+ sep +:+
  fmt_0d 2 (dt_hour t) +:+ ":" +:+ fmt_0d 2 (dt_minute t) +:+ ":" +:+
  fmt_0d 2 (dt_second t) +:+
  (if dt_microsecond t =? 0 then "" else "." +:+ fmt_0d 6 (dt_microsecond t)).

Definition datetime_isoformat : datetime → string := datetime_format "T".

Definition datetime_key (t : datetime) : list Z :=
  [dt_year t; dt_month t; dt_day t; dt_hour t; dt_minute t; dt_second t;
   dt_microsecond t].

(** ** bson.ObjectId *)

(** An ObjectId is twelve bytes; it is kept here as the 24 lower-case
    hexadecimal digits that [str] prints. *)
Record ObjectId := Oid { oid_hex : string }.

Definition is_hex_digit (c : ascii) : bool :=
  let n := N_of_ascii c in
  ((48 <=? n) && (n <=? 57) || (65 <=? n) && (n <=? 70) ||
   (97 <=? n) && (n <=? 102))%N.

Definition lower_char (c : ascii) : ascii :=
  let n := N_of_ascii c in
  if ((65 <=? n) && (n <=? 90))%N then ascii_of_N (n + 32) else c.

Fixpoint lower (s : string) : string :=
  match s with
  | EmptyString => EmptyString
  | String c r => String (lower_char c) (lower r)
  end.

(** ASCII whitespace: the space and the characters 9 to 13. *)
Definition is_space (c : ascii) : bool :=
  let n := N_of_ascii c in
  ((n =? 32) || (9 <=? n) && (n <=? 13))%N.

(** [bytes.fromhex(s)], kept as the hexadecimal digits of the bytes read:
    pairs of digits, with ASCII whitespace skipped before each pair;
    [None] where Python raises [ValueError]. *)
Fixpoint fromhex (s : string) : option string :=
  match s with
  | EmptyString => Some EmptyString
  | String c r =>
      if is_space c then fromhex r
      else
        match r with
        | String c' r' =>
            if is_hex_digit c && is_hex_digit c' then
              (λ t, String (lower_char c) (String (lower_char c') t)) <$> fromhex r'
            else None
        | EmptyString => None
        end
  end.

(** [ObjectId(s)] for a text [s]: [None] where bson raises [InvalidId].
    bson asks for 24 characters and hands them to [bytes.fromhex], so a
    text with whitespace in it yields an id of fewer than twelve bytes. *)
Definition ObjectId_of_str (s : string) : option ObjectId :=
  if (String.length s =? 24)%nat then Oid <$> fromhex s else None.

(** The ids the store hands out and can be asked for: twelve bytes. *)
Definition ObjectId_well_formed (o : ObjectId) : bool :=
  (String.length (oid_hex o) =? 24)%nat.

Definition hex_char (d : N) : ascii :=
  if (d <? 10)%N then ascii_of_N (48 + d) else ascii_of_N (87 + d).

Fixpoint hex_fixed (w : nat) (n : N) : string :=
  match w with
  | O => EmptyString
  | S w' => String (hex_char ((n / 16 ^ N.of_nat w') mod 16)%N) (hex_fixed w' n)
  end.

(** The driver draws the ids of new documents from a generator; the
    [n]-th id it hands out. *)
Definition ObjectId_fresh (n : N) : ObjectId := Oid (hex_fixed 24 n).

(** ** Values and documents *)

(** The values found in the dictionaries the handlers build and in the
    documents the store returns. *)
#[warnings="-register-all"]
Inductive value : Type :=
| VNone
| VBool (b : bool)
| VInt (z : Z)
| VFloat (f : spec_float)
| VStr (s : string)
| VObjectId (o : ObjectId)
| VDatetime (t : datetime)
| VDate (d : date)
| VList (l : list value).

(** Python truth value: [if v:]. *)
Definition py_truthy (v : value) : bool :=
  match v with
  | VNone => false
  | VBool b => b
  | VInt z => negb (z =? 0)
  | VFloat f => negb (F64.is_zero f)
  | VStr s => negb (String.eqb s "")
  | VObjectId _ | VDatetime _ | VDate _ => true
  | VList l => match l with [] => false | _ => true end
  end.

(** [str(v)].  The text of a float or of a list is not modelled. *)
Definition py_str (v : value) : option string :=
  match v with
  | VNone => Some "None"
  | VBool b => Some (if b then "True" else "False")
  | VInt z => Some (pretty z)
  | VStr s => Some s
  | VObjectId o => Some (oid_hex o)
  | VDatetime t => Some (datetime_format " " t)
  | VDate d => Some (date_isoformat d)
  | VFloat _ | VList _ => None
  end.

(** [float(v)]: a [TypeError] for values that are not numbers, an
    [OverflowError] for integers beyond the float range.  Reading a float
    from a text is not modelled. *)
Definition py_float (v : value) : outcome spec_float :=
  match v with
  | VFloat f => Ok f
  | VInt z =>
      match F64.of_Z z with
      | S754_infinity _ => Fault
      | f => Ok f
      end
  | VBool b => Ok (F64.of_Z (if b then 1 else 0))
  | VStr _ => Unmodelled
  | _ => Fault
  end.

(** ** The store's ordering of values *)

(** BSON compares values of different kinds by kind: null, numbers, text,
    arrays, ObjectId, booleans, dates.  [VDate] has no BSON encoding and
    never reaches the store; it is ranked with the dates. *)
Definition bson_rank (v : value) : Z :=
  match v with
  | VNone => 1
  | VInt _ | VFloat _ => 2
  | VStr _ => 3
  | VList _ => 5
  | VObjectId _ => 7
  | VBool _ => 8
  | VDatetime _ | VDate _ => 9
  end.

Definition bson_number (v : value) : option F64.number :=
  match v with
  | VInt z => Some (F64.Fin z 0)
  | VFloat f => Some (F64.to_number f)
  | _ => None
  end.

(** Within a kind: numbers by value whatever their representation, text
    and ObjectIds byte by byte, [false] before [True], datetimes in time
    order.  Arrays are not compared here: the store below refuses to
    answer when a queried field holds one. *)
Definition bson_compare (a b : value) : comparison :=
  match bson_rank a ?= bson_rank b with
  | Eq =>
      match a, b with
      | VStr s1, VStr s2 => String.compare s1 s2
      | VObjectId o1, VObjectId o2 => String.compare (oid_hex o1) (oid_hex o2)
      | VBool b1, VBool b2 => Bool.compare b1 b2
      | VDatetime t1, VDatetime t2 => lex_compare (datetime_key t1) (datetime_key t2)
      | _, _ =>
          match bson_number a, bson_number b with
          | Some x, Some y => F64.number_compare x y
          | _, _ => Eq
          end
      end
  | c => c
  end.

Definition bson_leb (a b : value) : bool :=
  match bson_compare a b with Gt => false | _ => true end.

Definition bson_eqb (a b : value) : bool :=
  match bson_compare a b with Eq => true | _ => false end.

(** ** serialize_doc *)

Definition is_datetime (v : value) : bool :=
  match v with VDatetime _ => true | _ => false end.

(** One turn of the loop [for k, v in list(doc.items())]. *)
Definition isoformat_field (d : gmap string value) (kv : string * value)
  : gmap string value :=
  match kv.2 with
  | VDatetime t => <[kv.1 := VStr (datetime_isoformat t)]> d
  | _ => d
  end.

Definition serialize_doc (d : gmap string value) : outcome (gmap string value) :=
  if (size d =? 0)%nat then Ok d
  else
    let renamed :=
      match d !! "_id" with
      | Some v =>
          if py_truthy v then
            match py_str v with
            | Some s => Ok (<["id" := VStr s]> (delete "_id" d))
            | None => Unmodelled
            end
          else Ok (<["id" := VNone]> d)
      | None => Ok (<["id" := VNone]> d)
      end in
    outcome_bind renamed (λ d1, Ok (foldl isoformat_field d1 (map_to_list d1))).

(** ** What BSON can encode *)

(** No [datetime.date], integers of at most eight bytes: the driver raises
    on the others before anything is sent. *)
Fixpoint value_encodable (v : value) : bool :=
  match v with
  | VDate _ => false
  | VInt z => (- 2 ^ 63 <=? z) && (z <? 2 ^ 63)
  | VList l => forallb value_encodable l
  | _ => true
  end.

(** A text that goes into a BSON C string holds no NUL. *)
Definition is_cstring (s : string) : bool :=
  forallb (λ c, negb (Ascii.eqb c "000")) (list_ascii_of_string s).

(** ** Regular expressions of the store *)

(** The store runs [$regex] patterns through PCRE, in UTF-8 mode.  The
    fragment kept here is the ASCII patterns made of ordinary characters,
    the wildcard [.] and backslash-escaped punctuation, matched against
    ASCII text, where a character is a byte and letter case is that of the
    26 letters; a pattern that uses any other operator, and any text beyond
    ASCII, is outside it. *)
Definition is_ascii (s : string) : bool :=
  forallb (λ c, (N_of_ascii c <? 128)%N) (list_ascii_of_string s).

Inductive atom : Type :=
| AnyChar
| Lit (c : ascii).

Definition is_regex_meta (c : ascii) : bool :=
  existsb (Ascii.eqb c) (list_ascii_of_string "\^$.|?*+()[]{}").

Definition is_alnum (c : ascii) : bool :=
  let n := N_of_ascii c in
  ((48 <=? n) && (n <=? 57) || (65 <=? n) && (n <=? 90) ||
   (97 <=? n) && (n <=? 122))%N.

Fixpoint regex_parse (p : string) : option (list atom) :=
  match p with
  | EmptyString => Some []
  | String c r =>
      if Ascii.eqb c "." then cons AnyChar <$> regex_parse r
      else if Ascii.eqb c "\" then
        match r with
        | String c' r' =>
            if is_alnum c' then None else cons (Lit c') <$> regex_parse r'
        | EmptyString => None
        end
      else if is_regex_meta c then None
      else cons (Lit c) <$> regex_parse r
  end.

Definition atom_matches (ci : bool) (a : atom) (c : ascii) : bool :=
  match a with
  | AnyChar => negb (Ascii.eqb c "010")
  | Lit x => if ci then Ascii.eqb (lower_char x) (lower_char c) else Ascii.eqb x c
  end.

(** The atoms match a prefix of [s]. *)
Fixpoint match_here (ci : bool) (atoms : list atom) (s : string) : bool :=
  match atoms, s with
  | [], _ => true
  | _ :: _, EmptyString => false
  | a :: atoms', String c r => atom_matches ci a c && match_here ci atoms' r
  end.

(** The atoms match somewhere in [s]: patterns are not anchored. *)
Fixpoint match_anywhere (ci : bool) (atoms : list atom) (s : string) : bool :=
  match_here ci atoms s ||
  match s with
  | EmptyString => false
  | String _ r => match_anywhere ci atoms r
  end.

Definition regex_supported (pattern options : string) : bool :=
  is_ascii pattern &&
  bool_decide (is_Some (regex_parse pattern)) &&
  (String.eqb options "" || String.eqb options "i").

Definition regex_search (pattern options s : string) : bool :=
  match regex_parse pattern with
  | Some atoms => match_anywhere (String.eqb options "i") atoms s
  | None => false
  end.

(** ** Queries *)

Inductive operator : Type :=
| OpGte (v : value)                   (* "$gte": v *)
| OpLte (v : value)                   (* "$lte": v *)
| OpIn (vs : list value)              (* "$in": vs *)
| OpRegex (pattern options : string). (* "$regex": pattern, "$options": options *)

Inductive condition : Type :=
| Equals (v : value)                  (* field: v *)
| Operators (ops : list operator).    (* field: {"$op": ..., ...} *)

Inductive clause : Type :=
| Field (name : string) (c : condition)
| Or (alternatives : list (list (string * condition))). (* "$or": [{...}, ...] *)

(** A field the document lacks reads as null. *)
Definition doc_field (d : gmap string value) (k : string) : value :=
  default VNone (d !! k).

Definition is_nan (v : value) : bool :=
  match bson_number v with Some F64.NaN => true | _ => false end.

(** Range operators compare within one kind only, and NaN is within range
    of nothing but NaN. *)
Definition in_range_leb (a b : value) : bool :=
  (bson_rank a =? bson_rank b) &&
  (if is_nan a || is_nan b then is_nan a && is_nan b else bson_leb a b).

Definition operator_holds (o : operator) (x : value) : bool :=
  match o with
  | OpGte v => in_range_leb v x
  | OpLte v => in_range_leb x v
  | OpIn vs => existsb (bson_eqb x) vs
  | OpRegex p opts => match x with VStr s => regex_search p opts s | _ => false end
  end.

Definition condition_holds (c : condition) (x : value) : bool :=
  match c with
  | Equals v => bson_eqb x v
  | Operators ops => forallb (λ o, operator_holds o x) ops
  end.

Definition fields_hold (fs : list (string * condition)) (d : gmap string value) : bool :=
  forallb (λ kc, condition_holds kc.2 (doc_field d kc.1)) fs.

Definition clause_holds (c : clause) (d : gmap string value) : bool :=
  match c with
  | Field k cond => condition_holds cond (doc_field d k)
  | Or alts => existsb (λ fs, fields_hold fs d) alts
  end.

Definition matches (q : list clause) (d : gmap string value) : bool :=
  forallb (λ c, clause_holds c d) q.

(** What the driver can send: operands BSON can encode, patterns and
    options without NUL.  It raises on the others ([OverflowError],
    [InvalidDocument]) when the query is first sent. *)
Definition operator_encodable (o : operator) : bool :=
  match o with
  | OpGte v | OpLte v => value_encodable v
  | OpIn vs => forallb value_encodable vs
  | OpRegex p opts => is_cstring p && is_cstring opts
  end.

Definition condition_encodable (c : condition) : bool :=
  match c with
  | Equals v => value_encodable v
  | Operators ops => forallb operator_encodable ops
  end.

Definition clause_encodable (c : clause) : bool :=
  match c with
  | Field _ cond => condition_encodable cond
  | Or alts => forallb (forallb (λ kc : string * condition, condition_encodable kc.2)) alts
  end.

Definition query_encodable (q : list clause) : bool :=
  forallb clause_encodable q.

(** What the model of the store answers: patterns inside the fragment,
    no array and no ObjectId of the wrong length as an operand, no array
    in a document under a field the query or the sort names (the store
    then looks inside the array), and ASCII text under the fields a
    pattern is matched against. *)
Definition is_array (v : value) : bool :=
  match v with VList _ => true | _ => false end.

Definition operand_supported (v : value) : bool :=
  match v with
  | VList _ => false
  | VObjectId o => ObjectId_well_formed o
  | _ => true
  end.

Definition operator_supported (o : operator) : bool :=
  match o with
  | OpGte v | OpLte v => operand_supported v
  | OpIn vs => forallb operand_supported vs
  | OpRegex p opts => regex_supported p opts
  end.

Definition condition_supported (c : condition) : bool :=
  match c with
  | Equals v => operand_supported v
  | Operators ops => forallb operator_supported ops
  end.

Definition clause_supported (c : clause) : bool :=
  match c with
  | Field _ cond => condition_supported cond
  | Or alts => forallb (forallb (λ kc : string * condition, condition_supported kc.2)) alts
  end.

Definition clause_fields (c : clause) : list string :=
  match c with
  | Field k _ => [k]
  | Or alts => concat (map (map fst) alts)
  end.

Definition is_regex (o : operator) : bool :=
  match o with OpRegex _ _ => true | _ => false end.

Definition condition_regex_fields (kc : string * condition) : list string :=
  match kc.2 with
  | Operators ops => if existsb is_regex ops then [kc.1] else []
  | Equals _ => []
  end.

(** The fields a pattern is matched against. *)
Definition clause_regex_fields (c : clause) : list string :=
  match c with
  | Field k cond => condition_regex_fields (k, cond)
  | Or alts => concat (map (λ fs, concat (map condition_regex_fields fs)) alts)
  end.

Definition scalar_at (ks : list string) (d : gmap string value) : bool :=
  forallb (λ k, negb (is_array (doc_field d k))) ks.

Definition ascii_at (ks : list string) (d : gmap string value) : bool :=
  forallb (λ k, match doc_field d k with VStr s => is_ascii s | _ => true end) ks.

Definition query_supported (q : list clause) (ks : list string)
    (coll : list (gmap string value)) : bool :=
  forallb clause_supported q &&
  forallb (scalar_at (concat (map clause_fields q) ++ ks)) coll &&
  forallb (ascii_at (concat (map clause_regex_fields q))) coll.

(** ** Cursors *)

(** [sort] takes (key, direction) pairs, [1] ascending and [-1]
    descending; later pairs break the ties of earlier ones. *)
Fixpoint sort_compare (spec : list (string * Z)) (a b : gmap string value)
  : comparison :=
  match spec with
  | [] => Eq
  | (k, dir) :: rest =>
      let c := bson_compare (doc_field a k) (doc_field b k) in
      match (if dir <? 0 then CompOpp c else c) with
      | Eq => sort_compare rest a b
      | c' => c'
      end
  end.

Definition sort_leb (spec : list (string * Z)) (a b : gmap string value) : bool :=
  match sort_compare spec a b with Gt => false | _ => true end.

Fixpoint insert_sorted {A} (leb : A → A → bool) (x : A) (l : list A) : list A :=
  match l with
  | [] => [x]
  | y :: l' => if leb x y then x :: l else y :: insert_sorted leb x l'
  end.

Definition sort_docs (spec : list (string * Z)) (l : list (gmap string value))
  : list (gmap string value) :=
  foldr (insert_sorted (sort_leb spec)) [] l.

(** A limit of [0] is no limit; the driver sends a negative limit as its
    absolute value.  A list no longer than the limit is returned whole. *)
Definition apply_limit (n : Z) (l : list (gmap string value))
  : list (gmap string value) :=
  if n =? 0 then l
  else if Z.of_nat (length l) <=? Z.abs n then l
  else take (Z.to_nat (Z.abs n)) l.

(** [collection.find(filt)] gives a cursor; [limit] and [sort] set its
    options in any order, and iterating it filters, sorts, then cuts. *)
Record cursor := Cursor {
  cur_coll : list (gmap string value);
  cur_filter : list clause;
  cur_limit : Z;
  cur_sort : list (string * Z) }.

Definition find (filt : list clause) (coll : list (gmap string value)) : cursor :=
  {| cur_coll := coll; cur_filter := filt; cur_limit := 0; cur_sort := [] |}.

Definition cursor_limit (n : Z) (c : cursor) : cursor :=
  {| cur_coll := cur_coll c; cur_filter := cur_filter c; cur_limit := n;
     cur_sort := cur_sort c |}.

Definition cursor_sort (spec : list (string * Z)) (c : cursor) : cursor :=
  {| cur_coll := cur_coll c; cur_filter := cur_filter c;
     cur_limit := cur_limit c; cur_sort := spec |}.

(** The limit travels as the integer [abs(limit)]. *)
Definition limit_encodable (n : Z) : bool :=
  value_encodable (VInt (Z.abs n)).

(** Iterating the cursor sends the query: the driver raises when it cannot
    encode the filter or the limit, and the exception is the caller's. *)
Definition cursor_list (c : cursor) : outcome (list (gmap string value)) :=
  if query_encodable (cur_filter c) && limit_encodable (cur_limit c) then
    if query_supported (cur_filter c) (map fst (cur_sort c)) (cur_coll c) then
      Ok (apply_limit (cur_limit c)
            (sort_docs (cur_sort c) (List.filter (matches (cur_filter c)) (cur_coll c))))
    else Unmodelled
  else Fault.

Definition count_documents (filt : list clause) (coll : list (gmap string value))
  : outcome Z :=
  if query_encodable filt then
    if query_supported filt [] coll then
      Ok (Z.of_nat (length (List.filter (matches filt) coll)))
    else Unmodelled
  else Fault.

Definition find_one (filt : list clause) (coll : list (gmap string value))
  : outcome (option (gmap string value)) :=
  if query_encodable filt then
    if query_supported filt [] coll then
      Ok (head (List.filter (matches filt) coll))
    else Unmodelled
  else Fault.

(** ** The process state *)

(** [db] of [database.py] is [None] or a handle on the database, a family
    of collections indexed by name; the driver's id generator and the clock
    complete the state a handler can touch. *)
Record world := World {
  w_db : option (gmap string (list (gmap string value)));
  w_next_oid : N;
  w_clock : datetime }.

(** [db[name]]: a collection never written to is empty. *)
Definition collection (db : gmap string (list (gmap string value))) (name : string)
  : list (gmap string value) :=
  default [] (db !! name).

(** Handlers read and write the state and may raise. *)
Definition M (A : Type) : Type := world → outcome A * world.

Definition ret {A} (a : A) : M A := λ w, (Ok a, w).

Definition raise {A} (status_code : Z) (detail : string) : M A :=
  λ w, (HTTPException status_code detail, w).

Definition lift {A} (o : outcome A) : M A := λ w, (o, w).

Definition bind {A B} (m : M A) (k : A → M B) : M B :=
  λ w, match m w with
       | (Ok a, w') => k a w'
       | (HTTPException c s, w') => (HTTPException c s, w')
       | (Fault, w') => (Fault, w')
       | (Unmodelled, w') => (Unmodelled, w')
       end.

Notation "'let!' x ':=' m 'in' k" := (bind m (λ x, k))
  (at level 10, x name, m at level 100, k at level 200,
   format "'[v' 'let!'  x  ':='  m  'in' '/' k ']'").

Definition db_handle : M (option (gmap string (list (gmap string value)))) :=
  λ w, (Ok (w_db w), w).

(** ** Writing to the store *)

Definition doc_encodable (d : gmap string value) : bool :=
  forallb (λ kv : string * value, value_encodable kv.2) (map_to_list d).

(** The driver gives a document without [_id] a fresh one before it sends
    it. *)
Definition with_id (d : gmap string value) (n : N) : gmap string value * N :=
  match d !! "_id" with
  | Some _ => (d, n)
  | None => (<["_id" := VObjectId (ObjectId_fresh n)]> d, N.succ n)
  end.

(** [db[name].insert_one(d)], returning [inserted_id]. *)
Definition insert_one (name : string) (d : gmap string value) : M value :=
  λ w, match w_db w with
       | None => (Fault, w)
       | Some db =>
           if doc_encodable d then
             let '(d', n') := with_id d (w_next_oid w) in
             (Ok (doc_field d' "_id"),
              {| w_db := Some (<[name := collection db name ++ [d']]> db);
                 w_next_oid := n';
                 w_clock := w_clock w |})
           else (Fault, w)
       end.

Fixpoint insert_each (name : string) (ds : list (gmap string value)) : M (list value) :=
  match ds with
  | [] => ret []
  | d :: ds' =>
      let! i := insert_one name d in
      let! ids := insert_each name ds' in
      ret (i :: ids)
  end.

(** [db[name].insert_many(ds)]: the driver refuses an empty list and
    encodes every document before it writes any. *)
Definition insert_many (name : string) (ds : list (gmap string value)) : M (list value) :=
  match ds with
  | [] => lift Fault
  | _ => if forallb doc_encodable ds then insert_each name ds else lift Fault
  end.

(** Modelled from the spec: [create_document] is defined in [database.py],
    which is not among the sources.  The spec has the write path persist the
    document it is handed, as it is, in the collection of that name, the
    store assign its identifier, and the stored record carry a [created_at]
    timestamp that the handlers do not set; the caller receives the new
    identifier as text. *)
Definition create_document (name : string) (data : gmap string value) : M string :=
  let! now := (λ w, (Ok (w_clock w), w)) in
  let! inserted_id := insert_one name (<["created_at" := VDatetime now]> data) in
  match py_str inserted_id with
  | Some s => ret s
  | None => lift Unmodelled
  end.

(** ** schemas.py *)

(** [class Booking(BaseModel)], after validation: the request body with
    the defaults of its optional fields filled in. *)
Record Booking := {
  car_id : string;
  user_name : string;
  email : string;
  phone : option string;
  pickup_date : date;
  dropoff_date : date;
  pickup_location : option string;
  dropoff_location : option string;
  total_cost : option spec_float;
  status : string }.

(** [status: str = Field("active", ...)]: what [status] holds when the
    request leaves it out. *)
Definition Booking_status_default : string := "active".

Definition opt_value {A} (inj : A → value) (o : option A) : value :=
  match o with Some a => inj a | None => VNone end.

(** [payload.model_dump()]. *)
Definition model_dump (b : Booking) : gmap string value :=
  {[ "car_id" := VStr (car_id b);
     "user_name" := VStr (user_name b);
     "email" := VStr (email b);
     "phone" := opt_value VStr (phone b);
     "pickup_date" := VDate (pickup_date b);
     "dropoff_date" := VDate (dropoff_date b);
     "pickup_location" := opt_value VStr (pickup_location b);
     "dropoff_location" := opt_value VStr (dropoff_location b);
     "total_cost" := opt_value VFloat (total_cost b);
     "status" := VStr (status b) ]}.

(** [class Car(BaseModel)], read as a predicate on stored documents: the
    required fields with their types and bounds, the optional ones when
    present. *)
Definition has_str (d : gmap string value) (k : string) : bool :=
  match d !! k with Some (VStr _) => true | _ => false end.

Definition has_int (lo hi : option Z) (d : gmap string value) (k : string) : bool :=
  match d !! k with
  | Some (VInt z) =>
      match lo with Some l => l <=? z | None => true end &&
      match hi with Some h => z <=? h | None => true end
  | _ => false
  end.

Definition float_between (lo : Z) (hi : option Z) (v : value) : bool :=
  match v with
  | VFloat f =>
      negb (is_nan v) && bson_leb (VInt lo) v &&
      match hi with Some h => bson_leb v (VInt h) | None => true end
  | _ => false
  end.

Definition optional (p : value → bool) (d : gmap string value) (k : string) : bool :=
  match d !! k with
  | None | Some VNone => true
  | Some v => p v
  end.

Definition Car (d : gmap string value) : bool :=
  has_str d "title" && has_str d "brand" && has_str d "model" &&
  has_int None None d "year" &&
  has_str d "type" && has_str d "transmission" && has_str d "fuel_type" &&
  has_int (Some 1) (Some 9) d "seats" &&
  optional (λ v, match v with VInt z => 0 <=? z | _ => false end) d "luggage" &&
  match d !! "price_per_day" with Some v => float_between 0 None v | None => false end &&
  optional (λ v, match v with
                 | VList l => forallb (λ x, match x with VStr _ => true | _ => false end) l
                 | _ => false
                 end) d "images" &&
  optional (float_between 0 (Some 5)) d "rating" &&
  optional (λ v, match v with VBool _ => true | _ => false end) d "featured".

(** ** main.py *)

Definition SAMPLE_CARS : list (gmap string value) :=
  [ {[ "title" := VStr "Apex GT-R";
       "brand" := VStr "Nissan";
       "model" := VStr "GT-R Nismo";
       "year" := VInt 2022;
       "type" := VStr "coupe";
       "transmission" := VStr "automatic";
       "fuel_type" := VStr "petrol";
       "seats" := VInt 4;
       "luggage" := VInt 2;
       "price_per_day" := VFloat (F64.of_decimal 3200 1);
       "images" := VList
         [ VStr "https://images.unsplash.com/photo-1619767886558-efdc259cde1b?q=80&w=1600&auto=format&fit=crop";
           VStr "https://images.unsplash.com/photo-1606664515524-ed2f786f83f2?q=80&w=1600&auto=format&fit=crop" ];
       "rating" := VFloat (F64.of_decimal 48 1);
       "featured" := VBool true ]};
    {[ "title" := VStr "Volt S";
       "brand" := VStr "Tesla";
       "model" := VStr "Model S Plaid";
       "year" := VInt 2023;
       "type" := VStr "sedan";
       "transmission" := VStr "automatic";
       "fuel_type" := VStr "electric";
       "seats" := VInt 5;
       "luggage" := VInt 3;
       "price_per_day" := VFloat (F64.of_decimal 2800 1);
       "images" := VList
         [ VStr "https://images.unsplash.com/photo-1549923746-c502d488b3ea?q=80&w=1600&auto=format&fit=crop";
           VStr "https://images.unsplash.com/photo-1549923686-1ea9789c2f73?q=80&w=1600&auto=format&fit=crop" ];
       "rating" := VFloat (F64.of_decimal 47 1);
       "featured" := VBool true ]};
    {[ "title" := VStr "Trailhawk X";
       "brand" := VStr "Jeep";
       "model" := VStr "Grand Cherokee";
       "year" := VInt 2021;
       "type" := VStr "suv";
       "transmission" := VStr "automatic";
       "fuel_type" := VStr "hybrid";
       "seats" := VInt 7;
       "luggage" := VInt 5;
       "price_per_day" := VFloat (F64.of_decimal 1900 1);
       "images" := VList
         [ VStr "https://images.unsplash.com/photo-1549921296-3cc26d0e3d36?q=80&w=1600&auto=format&fit=crop";
           VStr "https://images.unsplash.com/photo-1519648023493-d82b5f8d7fd2?q=80&w=1600&auto=format&fit=crop" ];
       "rating" := VFloat (F64.of_decimal 44 1);
       "featured" := VBool false ]} ].

(** The driver also writes each new [_id] back into the dictionary it was
    given, here into the entries of [SAMPLE_CARS]; a collection emptied
    from outside and seeded again would get the same ids.  The model draws
    fresh ones. *)
Definition ensure_seed : M unit :=
  let! db := db_handle in
  match db with
  | None => ret tt
  | Some db =>
      let! n := lift (count_documents [] (collection db "car")) in
      if n =? 0 then
        let! _ids := insert_many "car" SAMPLE_CARS in
        ret tt
      else ret tt
  end.

(** An optional query parameter adds its clause when it is truthy. *)
Definition when_truthy {A} (inj : A → value) (o : option A) (c : A → clause)
  : list clause :=
  match o with
  | Some a => if py_truthy (inj a) then [c a] else []
  | None => []
  end.

Definition price_cond (min_price max_price : option spec_float) : list operator :=
  match min_price with Some lo => [OpGte (VFloat lo)] | None => [] end ++
  match max_price with Some hi => [OpLte (VFloat hi)] | None => [] end.

Definition cars_filter (q type brand transmission fuel_type : option string)
    (seats : option Z) (min_price max_price : option spec_float) : list clause :=
  when_truthy VStr q (λ q,
    Or [ [("title", Operators [OpRegex q "i"])];
         [("brand", Operators [OpRegex q "i"])];
         [("model", Operators [OpRegex q "i"])] ]) ++
  when_truthy VStr type (λ x, Field "type" (Equals (VStr x))) ++
  when_truthy VStr brand (λ x, Field "brand" (Equals (VStr x))) ++
  when_truthy VStr transmission (λ x, Field "transmission" (Equals (VStr x))) ++
  when_truthy VStr fuel_type (λ x, Field "fuel_type" (Equals (VStr x))) ++
  when_truthy VInt seats (λ x, Field "seats" (Equals (VInt x))) ++
  match min_price, max_price with
  | None, None => []
  | _, _ => [Field "price_per_day" (Operators (price_cond min_price max_price))]
  end.

Definition cars_sort_spec (sort : option string) : string * Z :=
  if bool_decide (sort = Some "price_asc") then ("price_per_day", 1)
  else if bool_decide (sort = Some "price_desc") then ("price_per_day", -1)
  else if bool_decide (sort = Some "newest") then ("year", -1)
  else ("rating", -1).

Definition list_cars (q type brand transmission fuel_type : option string)
    (seats : option Z) (min_price max_price : option spec_float)
    (sort : option string) (limit : Z) : M (list (gmap string value)) :=
  let! _seeded := ensure_seed in
  let! db := db_handle in
  match db with
  | None => ret []
  | Some db =>
      let filt := cars_filter q type brand transmission fuel_type seats
                    min_price max_price in
      let sort_spec := cars_sort_spec sort in
      let cursor := cursor_sort [sort_spec]
                      (cursor_limit limit (find filt (collection db "car"))) in
      let! docs := lift (cursor_list cursor) in
      lift (outcome_map serialize_doc docs)
  end.

Definition overlap_filter (payload : Booking) : list clause :=
  [ Field "car_id" (Equals (VStr (car_id payload)));
    Field "status" (Operators [OpIn [VStr "active"; VStr "confirmed"]]);
    Or [ [ ("pickup_date",
            Operators [OpLte (VStr (date_isoformat (dropoff_date payload)))]);
           ("dropoff_date",
            Operators [OpGte (VStr (date_isoformat (pickup_date payload)))]) ] ] ].

Definition create_booking (payload : Booking) : M (gmap string value) :=
  let! db := db_handle in
  match db with
  | None => raise 500 "Database not available"
  | Some db =>
      match ObjectId_of_str (car_id payload) with
      | None => raise 400 "Invalid car id"
      | Some car_oid =>
          let! overlap :=
            lift (count_documents (overlap_filter payload) (collection db "booking")) in
          if 0 <? overlap then raise 409 "Selected dates are not available"
          else
            let days := date_sub_days (dropoff_date payload) (pickup_date payload) in
            if days <=? 0 then raise 400 "Drop-off must be after pickup"
            else
              let! car :=
                lift (find_one [Field "_id" (Equals (VObjectId car_oid))]
                        (collection db "car")) in
              match car with
              | None => raise 404 "Car not found"
              | Some car =>
                  if (size car =? 0)%nat then raise 404 "Car not found"
                  else
                    let! price :=
                      lift (py_float (default (VInt 0) (car !! "price_per_day"))) in
                    let total_cost := F64.round2 (F64.mul (F64.of_Z days) price) in
                    let booking_data := model_dump payload in
                    let booking_data :=
                      <["pickup_date" := VStr (date_isoformat (pickup_date payload))]>
                        booking_data in
                    let booking_data :=
                      <["dropoff_date" := VStr (date_isoformat (dropoff_date payload))]>
                        booking_data in
                    let booking_data :=
                      <["total_cost" := VFloat total_cost]> booking_data in
                    let! booking_id := create_document "booking" booking_data in
                    ret {[ "id" := VStr booking_id;
                           "total_cost" := VFloat total_cost;
                           "status" := VStr "confirmed" ]}
              end
      end
  end.

(** * Theorems *)

(** ** serialize_doc *)

Definition rendered (v : value) : value :=
  match v with
  | VDatetime t => VStr (datetime_isoformat t)
  | _ => v
  end.

Lemma isoformat_field_lookup (d : gmap string value) k v k' :
  isoformat_field d (k, v) !! k' =
  if decide (k = k') then (if is_datetime v then Some (rendered v) else d !! k')
  else d !! k'.
Proof.
  unfold isoformat_field; simpl.
  destruct v; simpl; case_decide; subst; try reflexivity.
  - by rewrite lookup_insert_eq.
  - by rewrite lookup_insert_ne.
Qed.

Lemma isoformat_loop_lookup (l : list (string * value)) :
  ∀ (acc : gmap string value) k,
    NoDup l.*1 →
    foldl isoformat_field acc l !! k =
    match (list_to_map l : gmap string value) !! k with
    | Some v => if is_datetime v then Some (rendered v) else acc !! k
    | None => acc !! k
    end.
Proof.
  induction l as [|[k' v'] l IH]; intros acc k Hnd; simpl.
  - by rewrite lookup_empty.
  - apply NoDup_cons in Hnd as [Hk' Hnd].
    rewrite IH by done.
    rewrite isoformat_field_lookup.
    destruct (decide (k' = k)) as [->|Hne].
    + rewrite lookup_insert_eq.
      rewrite (not_elem_of_list_to_map_1 _ k) by done.
      reflexivity.
    + rewrite lookup_insert_ne by done. reflexivity.
Qed.

Lemma isoformat_all_lookup (d : gmap string value) k :
  foldl isoformat_field d (map_to_list d) !! k = rendered <$> d !! k.
Proof.
  rewrite isoformat_loop_lookup by apply NoDup_fst_map_to_list.
  rewrite list_to_map_to_list.
  destruct (d !! k) as [v|] eqn:E; simpl; [|done].
  by destruct v.
Qed.

Lemma size_nonzero_of_lookup (d : gmap string value) k v :
  d !! k = Some v → (size d =? 0)%nat = false.
Proof.
  intros H. apply Nat.eqb_neq. intros Hs.
  apply map_size_empty_iff in Hs. subst d. by rewrite lookup_empty in H.
Qed.

(** ** The store: counting, finding, inserting *)

Definition cars (w : world) : list (gmap string value) :=
  match w_db w with Some db => collection db "car" | None => [] end.

Definition bookings (w : world) : list (gmap string value) :=
  match w_db w with Some db => collection db "booking" | None => [] end.

Lemma forallb_true {A} (l : list A) : forallb (λ _, true) l = true.
Proof. induction l; simpl; auto. Qed.

Lemma filter_true {A} (l : list A) : List.filter (λ _, true) l = l.
Proof. induction l; simpl; congruence. Qed.

Lemma count_documents_all coll :
  count_documents [] coll = Ok (Z.of_nat (length coll)).
Proof.
  unfold count_documents, query_supported, matches, scalar_at, ascii_at. simpl.
  by rewrite !forallb_true, filter_true.
Qed.

Lemma insert_one_ok name d w db :
  w_db w = Some db → doc_encodable d = true →
  insert_one name d w =
    (Ok (doc_field (with_id d (w_next_oid w)).1 "_id"),
     {| w_db := Some (<[name := collection db name ++ [(with_id d (w_next_oid w)).1]]> db);
        w_next_oid := (with_id d (w_next_oid w)).2;
        w_clock := w_clock w |}).
Proof.
  intros Hdb Henc. unfold insert_one. rewrite Hdb, Henc.
  by destruct (with_id d (w_next_oid w)).
Qed.

Lemma collection_insert_eq db name l :
  collection (<[name := l]> db) name = l.
Proof. unfold collection. by rewrite lookup_insert_eq. Qed.

Lemma collection_insert_ne db name name' l :
  name ≠ name' → collection (<[name := l]> db) name' = collection db name'.
Proof. intros. unfold collection. by rewrite lookup_insert_ne. Qed.

Lemma insert_each_ok name ds :
  ∀ w db, w_db w = Some db → forallb doc_encodable ds = true →
    ∃ ids ds' w' db',
      insert_each name ds w = (Ok ids, w') ∧
      w_db w' = Some db' ∧
      collection db' name = collection db name ++ ds' ∧
      length ds' = length ds.
Proof.
  induction ds as [|d ds IH]; intros w db Hdb Henc; simpl.
  - exists [], [], w, db. unfold ret. by rewrite app_nil_r.
  - apply andb_prop in Henc as [Hd Hds].
    unfold bind at 1. rewrite (insert_one_ok _ _ _ _ Hdb Hd).
    set (w1 := {| w_db := _ |}).
    destruct (IH w1 _ eq_refl Hds) as (ids & ds' & w' & db' & Hrun & Hdb' & Hcoll & Hlen).
    unfold bind at 1. rewrite Hrun. unfold ret.
    eexists _, (_ :: ds'), w', db'. split; [reflexivity|].
    split; [done|]. split; [|simpl; by rewrite Hlen].
    rewrite Hcoll, collection_insert_eq, <- app_assoc. reflexivity.
Qed.

Lemma insert_many_each name ds :
  ds ≠ [] → forallb doc_encodable ds = true →
  insert_many name ds = insert_each name ds.
Proof.
  intros Hne Henc. destruct ds as [|d ds]; [done|].
  unfold insert_many. by rewrite Henc.
Qed.

Lemma sample_cars_encodable : forallb doc_encodable SAMPLE_CARS = true.
Proof. vm_compute. reflexivity. Qed.

Lemma ensure_seed_no_db w : w_db w = None → ensure_seed w = (Ok tt, w).
Proof. intros H. unfold ensure_seed, bind, db_handle. by rewrite H. Qed.

Lemma ensure_seed_nonempty w : cars w ≠ [] → ensure_seed w = (Ok tt, w).
Proof.
  unfold cars, ensure_seed, bind, db_handle, lift.
  destruct (w_db w) as [db|]; [|done]. intros Hne.
  rewrite count_documents_all.
  destruct (collection db "car"); [done|]. reflexivity.
Qed.

Lemma ensure_seed_empty w db :
  w_db w = Some db → collection db "car" = [] →
  ∃ w', ensure_seed w = (Ok tt, w') ∧ length (cars w') = length SAMPLE_CARS.
Proof.
  intros Hdb Hempty.
  destruct (insert_each_ok "car" SAMPLE_CARS w db Hdb sample_cars_encodable)
    as (ids & ds' & w' & db' & Hrun & Hdb' & Hcoll & Hlen).
  exists w'. split.
  - unfold ensure_seed, bind at 1, db_handle. rewrite Hdb.
    unfold bind at 1, lift. rewrite count_documents_all, Hempty.
    change (Z.of_nat (length []) =? 0) with true. cbv iota.
    rewrite insert_many_each by (done || apply sample_cars_encodable).
    unfold bind. by rewrite Hrun.
  - unfold cars. rewrite Hdb', Hcoll, Hempty. simpl. by rewrite Hlen.
Qed.

Lemma ensure_seed_settles w :
  ∃ w', ensure_seed w = (Ok tt, w') ∧ ensure_seed w' = (Ok tt, w').
Proof.
  destruct (w_db w) as [db|] eqn:Hdb.
  - destruct (collection db "car") as [|c cs] eqn:Hcars.
    + destruct (ensure_seed_empty w db Hdb Hcars) as (w' & Hrun & Hlen).
      exists w'. split; [done|].
      apply ensure_seed_nonempty. intros Hnil. by rewrite Hnil in Hlen.
    + assert (Hne : cars w ≠ []) by (unfold cars; by rewrite Hdb, Hcars).
      exists w. by rewrite !ensure_seed_nonempty.
  - exists w. by rewrite !ensure_seed_no_db.
Qed.

(** A store that is there and holds nothing yet, and the same store after
    the first seeding. *)
Definition world_empty : world :=
  {| w_db := Some ∅; w_next_oid := 1; w_clock := Datetime 2024 1 1 12 0 0 0 |}.

Definition world_seeded : world := (ensure_seed world_empty).2.

Lemma world_seeded_cars : length (cars world_seeded) = 3%nat.
Proof. vm_compute. reflexivity. Qed.

Lemma world_seeded_bookings : bookings world_seeded = [].
Proof. vm_compute. reflexivity. Qed.

Lemma world_seeded_db : is_Some (w_db world_seeded).
Proof. apply (bool_decide_unpack _). vm_compute. reflexivity. Qed.

(** C8.  Seeding is idempotent when calls follow one another: a state
    whose car collection is not empty is left as it is, the state a call
    leaves is one that a further call leaves as it is, and so two calls in
    sequence do what one call does. *)
Theorem ensure_seed_idempotent (w : world) :
  (cars w ≠ [] → ensure_seed w = (Ok tt, w)) ∧
  (∃ w', ensure_seed w = (Ok tt, w') ∧ ensure_seed w' = (Ok tt, w')) ∧
  bind ensure_seed (λ _, ensure_seed) w = ensure_seed w.
Proof.
  split; [apply ensure_seed_nonempty|].
  split; [apply ensure_seed_settles|].
  destruct (ensure_seed_settles w) as (w' & H1 & H2).
  unfold bind. by rewrite H1, H2.
Qed.

Lemma ensure_seed_idempotent_witness :
  cars world_seeded ≠ [] ∧ ensure_seed world_seeded = (Ok tt, world_seeded).
Proof.
  assert (H : cars world_seeded ≠ []).
  { intros E. pose proof world_seeded_cars as L. rewrite E in L. discriminate. }
  split; [exact H|].
  exact (proj1 (ensure_seed_idempotent world_seeded) H).
Defined.

(** ** ISO dates compare as dates *)

Lemma digit_char_compare x y :
  0 <= x < 10 → 0 <= y < 10 →
  Ascii.compare (digit_char x) (digit_char y) = (x ?= y).
Proof.
  intros Hx Hy.
  assert (Hc : ∀ a b : nat, (a < 10)%nat → (b < 10)%nat →
    Ascii.compare (digit_char (Z.of_nat a)) (digit_char (Z.of_nat b)) = (Z.of_nat a ?= Z.of_nat b)).
  { intros a b Ha Hb.
    do 10 (destruct a as [|a]; [do 10 (destruct b as [|b]; [reflexivity|]); lia|]); lia. }
  rewrite <- (Z2Nat.id x), <- (Z2Nat.id y) by lia. apply Hc; lia.
Qed.

Lemma digit_mod_pow a i W :
  0 <= i < W →
  ((a mod 10 ^ W) / 10 ^ i) mod 10 = (a / 10 ^ i) mod 10.
Proof.
  intros Hi.
  replace (10 ^ W) with (10 ^ i * (10 * 10 ^ (W - i - 1))).
  2:{ rewrite <- Z.pow_succ_r, <- Z.pow_add_r by lia. f_equal. lia. }
  assert (Hp : 0 < 10 ^ i) by (apply Z.pow_pos_nonneg; lia).
  assert (Hq : 0 < 10 ^ (W - i - 1)) by (apply Z.pow_pos_nonneg; lia).
  rewrite Z.rem_mul_r by lia.
  rewrite (Z.mul_comm (10 ^ i)), Z.div_add by lia.
  rewrite Z.div_small by (apply Z.mod_pos_bound; lia).
  rewrite Z.add_0_l.
  rewrite Z.rem_mul_r by lia.
  rewrite (Z.mul_comm 10), Z.mod_add by lia.
  apply Z.mod_mod. lia.
Qed.

Lemma digits_fixed_mod a (w : nat) W :
  Z.of_nat w <= W → digits_fixed w (a mod 10 ^ W) = digits_fixed w a.
Proof.
  induction w as [|w IH]; intros Hw; simpl; [done|].
  rewrite digit_mod_pow by lia. rewrite IH by lia. reflexivity.
Qed.

Lemma digits_fixed_length w n : String.length (digits_fixed w n) = w.
Proof. induction w; simpl; congruence. Qed.

Lemma digits_fixed_compare (w : nat) :
  ∀ a b, 0 <= a < 10 ^ Z.of_nat w → 0 <= b < 10 ^ Z.of_nat w →
    String.compare (digits_fixed w a) (digits_fixed w b) = (a ?= b).
Proof.
  induction w as [|w IH]; intros a b Ha Hb.
  - simpl in *. assert (a = 0) by lia. assert (b = 0) by lia. by subst.
  - rewrite Nat2Z.inj_succ, Z.pow_succ_r in Ha, Hb by lia.
    set (p := 10 ^ Z.of_nat w) in *.
    assert (Hp : 0 < p) by (apply Z.pow_pos_nonneg; lia).
    simpl. fold p.
    assert (Hqa : 0 <= a / p < 10).
    { split; [apply Z.div_pos; lia | apply Z.div_lt_upper_bound; lia]. }
    assert (Hqb : 0 <= b / p < 10).
    { split; [apply Z.div_pos; lia | apply Z.div_lt_upper_bound; lia]. }
    rewrite !(Z.mod_small (_ / p) 10) by lia.
    rewrite digit_char_compare by lia.
    rewrite <- (digits_fixed_mod a w (Z.of_nat w)), <- (digits_fixed_mod b w (Z.of_nat w)) by lia.
    fold p. rewrite IH by (apply Z.mod_pos_bound; lia).
    pose proof (Z.div_mod a p ltac:(lia)) as Ea.
    pose proof (Z.div_mod b p ltac:(lia)) as Eb.
    pose proof (Z.mod_pos_bound a p Hp). pose proof (Z.mod_pos_bound b p Hp).
    destruct (Z.compare_spec (a / p) (b / p)) as [E|E|E].
    + destruct (Z.compare_spec (a mod p) (b mod p)); symmetry.
      * apply Z.compare_eq_iff. lia.
      * apply Z.compare_lt_iff. lia.
      * apply Z.compare_gt_iff. lia.
    + symmetry. apply Z.compare_lt_iff. nia.
    + symmetry. apply Z.compare_gt_iff. nia.
Qed.

Lemma compare_append a1 : ∀ a2 s1 s2,
  String.length a1 = String.length a2 →
  String.compare (a1 +:+ s1) (a2 +:+ s2) =
  match String.compare a1 a2 with Eq => String.compare s1 s2 | c => c end.
Proof.
  induction a1 as [|c1 a1 IH]; intros [|c2 a2] s1 s2 Hlen; simpl in *; try done.
  destruct (Ascii.compare c1 c2); try done. apply IH. lia.
Qed.

Lemma fmt_0d_fixed (w : nat) n :
  0 <= n < 10 ^ Z.of_nat w → fmt_0d w n = digits_fixed w n.
Proof.
  intros [H0 H1]. unfold fmt_0d.
  destruct (Z.ltb_spec n 0); [lia|].
  destruct (Z.ltb_spec n (10 ^ Z.of_nat w)); [done|lia].
Qed.

Lemma days_in_month_le y m : days_in_month y m <= 31.
Proof.
  unfold days_in_month. destruct m as [|p|p]; try lia.
  do 4 (try destruct p as [p|p|]); try lia; destruct (is_leap y); lia.
Qed.

Lemma valid_date_bounds d :
  valid_date d = true →
  1 <= year d <= 9999 ∧ 1 <= month d <= 12 ∧ 1 <= day d <= 31.
Proof.
  unfold valid_date. rewrite !andb_true_iff, !Z.leb_le.
  intros [[[[[Hy0 Hy1] Hm0] Hm1] Hd0] Hd1].
  pose proof (days_in_month_le (year d) (month d)). lia.
Qed.

Lemma date_isoformat_compare a b :
  valid_date a = true → valid_date b = true →
  String.compare (date_isoformat a) (date_isoformat b) = date_compare a b.
Proof.
  intros Ha Hb.
  apply valid_date_bounds in Ha as (Hya & Hma & Hda).
  apply valid_date_bounds in Hb as (Hyb & Hmb & Hdb).
  unfold date_isoformat, date_compare, lex_compare.
  rewrite !(fmt_0d_fixed 4), !(fmt_0d_fixed 2) by (simpl; lia).
  rewrite compare_append by (by rewrite !digits_fixed_length).
  rewrite digits_fixed_compare by (simpl; lia).
  destruct (year a ?= year b); try reflexivity.
  rewrite (compare_append "-" "-") by reflexivity.
  change (String.compare "-" "-") with Eq. cbv iota.
  rewrite compare_append by (by rewrite !digits_fixed_length).
  rewrite digits_fixed_compare by (simpl; lia).
  destruct (month a ?= month b); try reflexivity.
  rewrite (compare_append "-" "-") by reflexivity.
  change (String.compare "-" "-") with Eq. cbv iota.
  rewrite digits_fixed_compare by (simpl; lia).
  by destruct (day a ?= day b).
Qed.

Lemma string_compare_refl s : String.compare s s = Eq.
Proof.
  induction s as [|c s IH]; simpl; [done|].
  assert (Hc : Ascii.compare c c = Eq).
  { unfold Ascii.compare. apply N.compare_refl. }
  by rewrite Hc.
Qed.

Lemma string_compare_eqb a b :
  match String.compare a b with Eq => true | _ => false end = String.eqb a b.
Proof.
  destruct (String.eqb_spec a b) as [->|Hne].
  - by rewrite string_compare_refl.
  - destruct (String.compare a b) eqn:E; try done.
    by apply String.compare_eq_iff in E.
Qed.

(** ** ISO 8601 *)

(** A reader of the extended calendar format of ISO 8601 for a date with
    the time of day, [YYYY-MM-DDThh:mm:ss], the seconds followed, when
    there is a fraction, by a point and six digits.  It is written from
    the format, not from [isoformat]: a text is ISO 8601 for the datetime
    [t] when the reader makes [t] of it. *)
Definition digit_value (c : ascii) : option Z :=
  let n := N_of_ascii c in
  if ((48 <=? n) && (n <=? 57))%N then Some (Z.of_N n - 48) else None.

Fixpoint read_digits (w : nat) (acc : Z) (s : string) : option (Z * string) :=
  match w, s with
  | O, _ => Some (acc, s)
  | S w', String c r =>
      match digit_value c with
      | Some d => read_digits w' (10 * acc + d) r
      | None => None
      end
  | S _, EmptyString => None
  end.

Definition read_char (c : ascii) (s : string) : option string :=
  match s with
  | String c' r => if Ascii.eqb c c' then Some r else None
  | EmptyString => None
  end.

Definition read_fraction (s : string) : option Z :=
  match s with
  | EmptyString => Some 0
  | _ =>
      s ← read_char "." s;
      '(us, s) ← read_digits 6 0 s;
      match s with EmptyString => Some us | _ => None end
  end.

Definition iso8601_read (s : string) : option datetime :=
  '(y, s) ← read_digits 4 0 s;
  s ← read_char "-" s;
  '(mo, s) ← read_digits 2 0 s;
  s ← read_char "-" s;
  '(d, s) ← read_digits 2 0 s;
  s ← read_char "T" s;
  '(h, s) ← read_digits 2 0 s;
  s ← read_char ":" s;
  '(mi, s) ← read_digits 2 0 s;
  s ← read_char ":" s;
  '(sec, s) ← read_digits 2 0 s;
  us ← read_fraction s;
  Some (Datetime y mo d h mi sec us).

(** The datetimes Python can represent. *)
Definition valid_datetime (t : datetime) : bool :=
  valid_date (Date (dt_year t) (dt_month t) (dt_day t)) &&
  (0 <=? dt_hour t) && (dt_hour t <? 24) &&
  (0 <=? dt_minute t) && (dt_minute t <? 60) &&
  (0 <=? dt_second t) && (dt_second t <? 60) &&
  (0 <=? dt_microsecond t) && (dt_microsecond t <? 1000000).

Lemma digit_value_digit_char d :
  0 <= d < 10 → digit_value (digit_char d) = Some d.
Proof.
  intros Hd.
  assert (H : d = 0 ∨ d = 1 ∨ d = 2 ∨ d = 3 ∨ d = 4 ∨ d = 5 ∨ d = 6 ∨ d = 7 ∨
              d = 8 ∨ d = 9) by lia.
  repeat (destruct H as [->|H]; [reflexivity|]). by subst.
Qed.

Lemma read_digits_fixed (w : nat) :
  ∀ n acc rest, 0 <= n < 10 ^ Z.of_nat w →
    read_digits w acc (digits_fixed w n +:+ rest) =
    Some (acc * 10 ^ Z.of_nat w + n, rest).
Proof.
  induction w as [|w IH]; intros n acc rest Hn.
  - simpl in *. do 2 f_equal. lia.
  - rewrite Nat2Z.inj_succ, Z.pow_succ_r in * by lia.
    set (p := 10 ^ Z.of_nat w) in *.
    assert (Hp : 0 < p) by (apply Z.pow_pos_nonneg; lia).
    assert (Hq : 0 <= n / p < 10).
    { split; [apply Z.div_pos; lia | apply Z.div_lt_upper_bound; lia]. }
    simpl. fold p.
    rewrite (Z.mod_small (n / p) 10) by lia.
    rewrite digit_value_digit_char by lia.
    rewrite <- (digits_fixed_mod n w (Z.of_nat w)) by lia. fold p.
    rewrite IH by (apply Z.mod_pos_bound; lia). fold p.
    pose proof (Z.div_mod n p ltac:(lia)) as E.
    do 2 f_equal. lia.
Qed.

Lemma read_number (w : nat) n rest :
  0 <= n < 10 ^ Z.of_nat w →
  read_digits w 0 (fmt_0d w n +:+ rest) = Some (n, rest).
Proof.
  intros Hn. rewrite fmt_0d_fixed, read_digits_fixed by done. do 2 f_equal.
Qed.

Lemma read_char_here c rest : read_char c (String c "" +:+ rest) = Some rest.
Proof.
  change (String c "" +:+ rest) with (String c rest).
  simpl. by rewrite Ascii.eqb_refl.
Qed.

Lemma string_app_nil_r (s : string) : s +:+ "" = s.
Proof.
  induction s as [|c s IH]; [reflexivity|].
  change (String c (s +:+ "") = String c s). by rewrite IH.
Qed.

Lemma read_fraction_isoformat us :
  0 <= us < 1000000 →
  read_fraction (if us =? 0 then "" else "." +:+ fmt_0d 6 us) = Some us.
Proof.
  intros Hus. destruct (Z.eqb_spec us 0) as [->|Hne]; [reflexivity|].
  unfold read_fraction.
  change ("." +:+ fmt_0d 6 us) with (String "." (fmt_0d 6 us)).
  change (read_char "." (String "." (fmt_0d 6 us))) with (Some (fmt_0d 6 us)).
  rewrite <- (string_app_nil_r (fmt_0d 6 us)).
  cbn [mbind option_bind].
  rewrite read_number by (simpl; lia). reflexivity.
Qed.

(** What [isoformat] prints is ISO 8601 for the datetime it was given. *)
Lemma iso8601_read_isoformat t :
  valid_datetime t = true → iso8601_read (datetime_isoformat t) = Some t.
Proof.
  destruct t as [y mo d h mi sec us]. unfold valid_datetime. simpl.
  rewrite !andb_true_iff, !Z.leb_le, !Z.ltb_lt.
  intros ((((((((Hd & Hh0) & Hh1) & Hm0) & Hm1) & Hs0) & Hs1) & Hu0) & Hu1).
  apply valid_date_bounds in Hd as (Hy & Hmo & Hd). simpl in Hy, Hmo, Hd.
  unfold iso8601_read, datetime_isoformat, datetime_format.
  cbn [dt_year dt_month dt_day dt_hour dt_minute dt_second dt_microsecond].
  rewrite read_number by (simpl; lia). cbn [mbind option_bind].
  rewrite read_char_here. cbn [mbind option_bind].
  rewrite read_number by (simpl; lia). cbn [mbind option_bind].
  rewrite read_char_here. cbn [mbind option_bind].
  rewrite read_number by (simpl; lia). cbn [mbind option_bind].
  rewrite read_char_here. cbn [mbind option_bind].
  rewrite read_number by (simpl; lia). cbn [mbind option_bind].
  rewrite read_char_here. cbn [mbind option_bind].
  rewrite read_number by (simpl; lia). cbn [mbind option_bind].
  rewrite read_char_here. cbn [mbind option_bind].
  rewrite read_number by (simpl; lia). cbn [mbind option_bind].
  rewrite read_fraction_isoformat by lia. reflexivity.
Qed.

(** ** Serialising a stored document *)

(** The text of the store's id ends up under [id]. *)
Lemma serialize_doc_id (d : gmap string value) (o : ObjectId) :
  d !! "_id" = Some (VObjectId o) →
  ∃ r, serialize_doc d = Ok r ∧ r !! "id" = Some (VStr (oid_hex o)).
Proof.
  intros Hid. unfold serialize_doc.
  rewrite (size_nonzero_of_lookup _ _ _ Hid), Hid. simpl.
  eexists. split; [reflexivity|].
  rewrite isoformat_all_lookup, lookup_insert_eq. reflexivity.
Qed.

(** A stored document that has a field named [id] of its own. *)
Definition doc_with_id_field : gmap string value :=
  {[ "_id" := VObjectId (ObjectId_fresh 10); "id" := VInt 7;
     "title" := VStr "Volt S" ]}.

(** C9, as stated, fails: [id] is a field other than the identifier field
    [_id] and holds no timestamp, yet serialising does not leave its value
    as it was; the text of the identifier takes its place. *)
Lemma serialize_doc_id_field_counterexample :
  ∃ r, serialize_doc doc_with_id_field = Ok r ∧
       doc_with_id_field !! "_id" = Some (VObjectId (ObjectId_fresh 10)) ∧
       doc_with_id_field !! "id" = Some (VInt 7) ∧
       is_datetime (VInt 7) = false ∧
       r !! "id" = Some (VStr "00000000000000000000000a") ∧
       r !! "id" ≠ doc_with_id_field !! "id".
Proof.
  destruct (serialize_doc_id doc_with_id_field (ObjectId_fresh 10) eq_refl)
    as (r & Hrun & Hr).
  exists r. split; [exact Hrun|].
  split; [reflexivity|]. split; [reflexivity|]. split; [reflexivity|].
  split; [exact Hr|]. rewrite Hr. discriminate.
Qed.

(** C9, amended.  Serialising a stored document, one that carries the
    ObjectId the store gave it under [_id], succeeds; the result has the
    text of that id under [id], whatever the document held there, and no
    [_id] key; every other field that held a datetime holds the text
    [isoformat] prints for it, which is ISO 8601 for that datetime
    ([YYYY-MM-DDThh:mm:ss], with a point and six digits of microseconds
    when these are not zero); every other field keeps its value; and no
    key appears that was not there. *)
Theorem serialize_doc_renames_id_and_renders_datetimes
    (d : gmap string value) (o : ObjectId) :
  d !! "_id" = Some (VObjectId o) →
  ∃ r, serialize_doc d = Ok r ∧
       r !! "id" = Some (VStr (oid_hex o)) ∧
       r !! "_id" = None ∧
       (∀ k t, k ≠ "id" → d !! k = Some (VDatetime t) →
               ∃ s, r !! k = Some (VStr s) ∧ s = datetime_isoformat t ∧
                    (valid_datetime t = true → iso8601_read s = Some t)) ∧
       (∀ k v, k ≠ "id" → k ≠ "_id" → d !! k = Some v →
               is_datetime v = false → r !! k = Some v) ∧
       (∀ k, k ≠ "id" → d !! k = None → r !! k = None).
Proof.
  intros Hid. unfold serialize_doc.
  rewrite (size_nonzero_of_lookup _ _ _ Hid), Hid. simpl.
  eexists. split; [reflexivity|].
  split; [|split; [|split; [|split]]].
  - rewrite isoformat_all_lookup, lookup_insert_eq. reflexivity.
  - rewrite isoformat_all_lookup, lookup_insert_ne by done.
    by rewrite lookup_delete_eq.
  - intros k t Hk Hd.
    exists (datetime_isoformat t). split; [|split; [reflexivity|]].
    + rewrite isoformat_all_lookup, lookup_insert_ne by done.
      destruct (decide (k = "_id")) as [->|Hk']; [congruence|].
      rewrite lookup_delete_ne by done. by rewrite Hd.
    + apply iso8601_read_isoformat.
  - intros k v Hk Hk' Hd Hv.
    rewrite isoformat_all_lookup, lookup_insert_ne by done.
    rewrite lookup_delete_ne by done. rewrite Hd. simpl.
    by destruct v.
  - intros k Hk Hd.
    rewrite isoformat_all_lookup, lookup_insert_ne by done.
    destruct (decide (k = "_id")) as [->|Hk']; [congruence|].
    rewrite lookup_delete_ne by done. by rewrite Hd.
Qed.

(** A stored document with two timestamps, one of them with
    microseconds. *)
Definition doc_with_timestamps : gmap string value :=
  {[ "_id" := VObjectId (ObjectId_fresh 10); "title" := VStr "Volt S";
     "created_at" := VDatetime (Datetime 2024 1 2 3 4 5 0);
     "updated_at" := VDatetime (Datetime 2024 11 30 23 59 7 678000) ]}.

Lemma serialize_doc_witness :
  ∃ r, serialize_doc doc_with_timestamps = Ok r ∧
       r !! "id" = Some (VStr "00000000000000000000000a") ∧
       r !! "_id" = None ∧
       r !! "created_at" = Some (VStr "2024-01-02T03:04:05") ∧
       iso8601_read "2024-01-02T03:04:05" = Some (Datetime 2024 1 2 3 4 5 0) ∧
       r !! "updated_at" = Some (VStr "2024-11-30T23:59:07.678000") ∧
       iso8601_read "2024-11-30T23:59:07.678000" =
         Some (Datetime 2024 11 30 23 59 7 678000) ∧
       r !! "title" = Some (VStr "Volt S") ∧
       r !! "status" = None.
Proof.
  destruct (serialize_doc_renames_id_and_renders_datetimes
              doc_with_timestamps (ObjectId_fresh 10) eq_refl)
    as (r & Hrun & Hid & Hnoid & Hdt & Hother & Hnone).
  exists r. split; [exact Hrun|]. split; [exact Hid|]. split; [exact Hnoid|].
  destruct (Hdt "created_at" (Datetime 2024 1 2 3 4 5 0))
    as (s1 & Hs1 & -> & Hread1); [discriminate|reflexivity|].
  destruct (Hdt "updated_at" (Datetime 2024 11 30 23 59 7 678000))
    as (s2 & Hs2 & -> & Hread2); [discriminate|reflexivity|].
  split; [exact Hs1|]. split; [exact (Hread1 eq_refl)|].
  split; [exact Hs2|]. split; [exact (Hread2 eq_refl)|].
  split.
  - apply Hother; [discriminate|discriminate|reflexivity|reflexivity].
  - apply Hnone; [discriminate|reflexivity].
Defined.

(** ** The booking engine *)

(** A stored booking as [create_booking] writes it: the booked car's id
    as text, a status, and the two dates as the ISO text of calendar
    dates. *)
Definition booking_record (b : gmap string value) (c st : string) (d1 d2 : date)
  : Prop :=
  b !! "car_id" = Some (VStr c) ∧
  b !! "status" = Some (VStr st) ∧
  b !! "pickup_date" = Some (VStr (date_isoformat d1)) ∧
  b !! "dropoff_date" = Some (VStr (date_isoformat d2)) ∧
  valid_date d1 = true ∧ valid_date d2 = true ∧
  is_Some (ObjectId_of_str c).

(** The booking collection holds bookings only. *)
Definition bookings_wf (w : world) : Prop :=
  Forall (λ b, ∃ c st d1 d2, booking_record b c st d1 d2) (bookings w).

Definition conflict {A} : outcome A :=
  HTTPException 409 "Selected dates are not available".

Lemma iso_leb_date_leb a b :
  valid_date a = true → valid_date b = true →
  in_range_leb (VStr (date_isoformat a)) (VStr (date_isoformat b)) = date_leb a b.
Proof.
  intros Ha Hb. unfold in_range_leb, bson_leb, bson_compare, date_leb. simpl.
  by rewrite date_isoformat_compare.
Qed.

Lemma overlap_matches_record p b c st d1 d2 :
  booking_record b c st d1 d2 →
  valid_date (pickup_date p) = true → valid_date (dropoff_date p) = true →
  matches (overlap_filter p) b =
    String.eqb c (car_id p) &&
    (String.eqb st "active" || String.eqb st "confirmed") &&
    (date_leb d1 (dropoff_date p) && date_leb (pickup_date p) d2).
Proof.
  intros (Hc & Hst & Hp & Hd & Hv1 & Hv2 & _) Hvp Hvd.
  unfold matches, overlap_filter, clause_holds, fields_hold, condition_holds,
    operator_holds, doc_field. simpl.
  rewrite Hc, Hst, Hp, Hd. simpl.
  rewrite !iso_leb_date_leb by done.
  unfold bson_eqb, bson_compare. simpl.
  rewrite !string_compare_eqb.
  rewrite !andb_true_r, !orb_false_r. by rewrite andb_assoc.
Qed.

Lemma overlap_supported p coll :
  Forall (λ b, ∃ c st d1 d2, booking_record b c st d1 d2) coll →
  query_supported (overlap_filter p) [] coll = true.
Proof.
  intros Hwf. unfold query_supported. simpl.
  rewrite forallb_true, andb_true_r.
  apply forallb_forall. intros b Hb.
  rewrite Forall_forall in Hwf.
  destruct (Hwf b) as (c & st & d1 & d2 & Hc & Hst & Hp & Hd & _).
  { by apply list_elem_of_In. }
  unfold scalar_at, doc_field. simpl. by rewrite Hc, Hst, Hp, Hd.
Qed.

Lemma overlap_encodable p : query_encodable (overlap_filter p) = true.
Proof. reflexivity. Qed.

Lemma count_positive_exists (f : gmap string value → bool) coll :
  (0 <? Z.of_nat (length (List.filter f coll))) = existsb f coll.
Proof.
  induction coll as [|x coll IH]; simpl; [done|].
  destruct (f x); simpl; [|done].
  apply Z.ltb_lt. lia.
Qed.

(** Up to the availability check: what [create_booking] answers when the
    store is there, the car id parses and the store answers the query. *)
Lemma create_booking_checks p w db oid :
  w_db w = Some db →
  ObjectId_of_str (car_id p) = Some oid →
  query_supported (overlap_filter p) [] (collection db "booking") = true →
  (existsb (matches (overlap_filter p)) (collection db "booking") = true →
   create_booking p w = (conflict, w)) ∧
  (existsb (matches (overlap_filter p)) (collection db "booking") = false →
   date_sub_days (dropoff_date p) (pickup_date p) <= 0 →
   create_booking p w = (HTTPException 400 "Drop-off must be after pickup", w)).
Proof.
  intros Hdb Hoid Hsup.
  split; [intros Hex | intros Hex Hdays];
    unfold create_booking, bind at 1, db_handle; rewrite Hdb, Hoid;
    unfold bind at 1, lift, count_documents;
    rewrite overlap_encodable, Hsup, count_positive_exists, Hex.
  - reflexivity.
  - apply Z.leb_le in Hdays. by rewrite Hdays.
Qed.

Ltac other_outcome :=
  let H := fresh in
  intros H; unfold raise, lift, ret in H; simpl in H; discriminate H.

Lemma create_document_no_http name data w c s :
  (create_document name data w).1 ≠ HTTPException c s.
Proof.
  unfold create_document, insert_one, bind, lift, ret.
  destruct (w_db w); [|other_outcome].
  destruct (doc_encodable _); [|other_outcome].
  destruct (with_id _ _) as [d' n'].
  destruct (py_str _); other_outcome.
Qed.

(** Past the availability check no path raises the conflict. *)
Lemma create_booking_no_late_conflict p w db oid :
  w_db w = Some db →
  ObjectId_of_str (car_id p) = Some oid →
  query_supported (overlap_filter p) [] (collection db "booking") = true →
  existsb (matches (overlap_filter p)) (collection db "booking") = false →
  (create_booking p w).1 ≠ HTTPException 409 "Selected dates are not available".
Proof.
  intros Hdb Hoid Hsup Hex.
  unfold create_booking, bind at 1, db_handle; rewrite Hdb, Hoid.
  unfold bind at 1, lift, count_documents.
  rewrite overlap_encodable, Hsup, count_positive_exists, Hex.
  destruct (_ <=? 0); [other_outcome|].
  unfold bind at 1, lift, find_one.
  destruct (query_encodable [Field _ _]); [|other_outcome].
  destruct (query_supported [Field _ _] _ _); [|other_outcome].
  destruct (head _) as [car|]; [|other_outcome].
  destruct (size car =? 0)%nat; [other_outcome|].
  unfold bind at 1, lift.
  destruct (py_float _) as [price| | |] eqn:Hprice; try other_outcome.
  { unfold bind at 1.
    match goal with
    | |- context [create_document ?n ?d ?w0] =>
        pose proof (create_document_no_http n d w0) as Hcd;
        destruct (create_document n d w0) as [[id| | |] w'']
    end; try other_outcome.
    by destruct (Hcd status_code detail). }
  exfalso. revert Hprice. clear. unfold py_float.
  destruct (default _ _) as [| |z| | | | | |]; try discriminate.
  by destruct (F64.of_Z z).
Qed.

(** A stored booking [b] stands in the way of the request [p]: it is for
    the same car, is active or confirmed, starts no later than the
    requested drop-off and ends no earlier than the requested pickup. *)
Definition in_the_way (b : gmap string value) (p : Booking) : Prop :=
  ∃ c st d1 d2,
    booking_record b c st d1 d2 ∧
    c = car_id p ∧ (st = "active" ∨ st = "confirmed") ∧
    date_leb d1 (dropoff_date p) = true ∧
    date_leb (pickup_date p) d2 = true.

Lemma overlap_found_iff p coll :
  Forall (λ b, ∃ c st d1 d2, booking_record b c st d1 d2) coll →
  valid_date (pickup_date p) = true →
  valid_date (dropoff_date p) = true →
  existsb (matches (overlap_filter p)) coll = true ↔
  ∃ b, b ∈ coll ∧ in_the_way b p.
Proof.
  intros Hwf Hvp Hvd. rewrite existsb_exists. split.
  - intros (b & Hb & Hm). apply list_elem_of_In in Hb.
    rewrite Forall_forall in Hwf.
    destruct (Hwf b Hb) as (c & st & d1 & d2 & Hrec).
    rewrite (overlap_matches_record p b c st d1 d2) in Hm by done.
    rewrite !andb_true_iff, orb_true_iff, !String.eqb_eq in Hm.
    destruct Hm as [[Hc Hst] [Hl1 Hl2]].
    exists b. split; [done|]. by exists c, st, d1, d2.
  - intros (b & Hb & c & st & d1 & d2 & Hrec & -> & Hst & Hl1 & Hl2).
    exists b. split; [by apply list_elem_of_In|].
    rewrite (overlap_matches_record p b (car_id p) st d1 d2) by done.
    rewrite String.eqb_refl, Hl1, Hl2. simpl.
    destruct Hst as [->| ->]; reflexivity.
Qed.

(** C1.  On a booking collection that holds bookings only, a request with
    calendar dates is turned down as a conflict exactly when some stored
    booking is for the same car, is active or confirmed, starts no later
    than the requested drop-off and ends no earlier than the requested
    pickup; both comparisons admit equality, so a booking that ends on the
    day the request starts is in the way. *)
Theorem create_booking_conflict_iff (p : Booking) (w : world) :
  bookings_wf w →
  valid_date (pickup_date p) = true →
  valid_date (dropoff_date p) = true →
  (create_booking p w).1 = HTTPException 409 "Selected dates are not available" ↔
  ∃ b, b ∈ bookings w ∧ in_the_way b p.
Proof.
  intros Hwf Hvp Hvd. unfold bookings_wf, bookings in *.
  destruct (w_db w) as [db|] eqn:Hdb.
  2:{ split.
      - intros Hres. unfold create_booking, bind, db_handle in Hres.
        by rewrite Hdb in Hres.
      - intros (b & Hb & _). by apply elem_of_nil in Hb. }
  pose proof (overlap_supported p _ Hwf) as Hsup.
  rewrite <- (overlap_found_iff p _ Hwf Hvp Hvd).
  destruct (ObjectId_of_str (car_id p)) as [oid|] eqn:Hoid.
  - destruct (create_booking_checks p w db oid Hdb Hoid Hsup) as [Hconf _].
    split.
    + intros Hres.
      destruct (existsb (matches (overlap_filter p)) (collection db "booking"))
        eqn:Hex; [done|].
      by destruct (create_booking_no_late_conflict p w db oid).
    + intros Hex. by rewrite Hconf.
  - split.
    + intros Hres. unfold create_booking, bind, db_handle in Hres.
      by rewrite Hdb, Hoid in Hres.
    + intros Hex. apply (overlap_found_iff p _ Hwf Hvp Hvd) in Hex
        as (b & Hb & c & st & d1 & d2 & Hrec & -> & _).
      destruct Hrec as (_ & _ & _ & _ & _ & _ & [oid Hoid']). congruence.
Qed.

(** The boundary case of the spec: car C is booked over
    [2024-01-10, 2024-01-15), and a request arrives for
    [2024-01-15, 2024-01-20). *)
Definition car_C : string := "000000000000000000000001".

Definition request (pickup dropoff : date) (cost : option spec_float) : Booking :=
  {| car_id := car_C; user_name := "Ada"; email := "ada@example.org";
     phone := None; pickup_date := pickup; dropoff_date := dropoff;
     pickup_location := None; dropoff_location := None;
     total_cost := cost; status := Booking_status_default |}.

Definition world_booked : world :=
  (create_booking (request (Date 2024 1 10) (Date 2024 1 15) None) world_seeded).2.

Definition stored_booking : gmap string value :=
  default ∅ (head (bookings world_booked)).

Lemma bookings_world_booked : bookings world_booked = [stored_booking].
Proof. vm_cast_no_check (eq_refl (bookings world_booked)). Qed.

Lemma world_booked_db : is_Some (w_db world_booked).
Proof. apply (bool_decide_unpack _). vm_compute. reflexivity. Qed.

Lemma request_car_id_ok pickup dropoff cost :
  is_Some (ObjectId_of_str (car_id (request pickup dropoff cost))).
Proof. apply (bool_decide_unpack _). vm_compute. reflexivity. Qed.

Lemma stored_booking_record :
  booking_record stored_booking car_C "active" (Date 2024 1 10) (Date 2024 1 15).
Proof.
  repeat split; try (vm_compute; reflexivity).
  apply (request_car_id_ok (Date 2024 1 10) (Date 2024 1 15) None).
Qed.

Lemma world_booked_wf : bookings_wf world_booked.
Proof.
  unfold bookings_wf. rewrite bookings_world_booked.
  constructor; [|constructor].
  exists car_C, "active", (Date 2024 1 10), (Date 2024 1 15).
  apply stored_booking_record.
Qed.

Lemma create_booking_conflict_iff_witness :
  bookings_wf world_booked ∧
  (create_booking (request (Date 2024 1 15) (Date 2024 1 20) None) world_booked).1 =
    HTTPException 409 "Selected dates are not available".
Proof.
  split; [apply world_booked_wf|].
  apply (create_booking_conflict_iff
           (request (Date 2024 1 15) (Date 2024 1 20) None) world_booked
           world_booked_wf eq_refl eq_refl).
  exists stored_booking.
  split; [rewrite bookings_world_booked; apply list_elem_of_here|].
  exists car_C, "active", (Date 2024 1 10), (Date 2024 1 15).
  split; [apply stored_booking_record|].
  repeat split; auto.
Defined.

(** A request whose drop-off is two days before its pickup, for the car
    that is booked over [2024-01-10, 2024-01-15). *)
Definition request_backwards : Booking :=
  request (Date 2024 1 14) (Date 2024 1 12) None.

(** C3, as stated, fails: the car id is well formed and the day count is
    [-2], yet the answer is the conflict, because the availability check
    runs first. *)
Lemma create_booking_day_check_first_counterexample :
  is_Some (ObjectId_of_str (car_id request_backwards)) ∧
  date_sub_days (dropoff_date request_backwards) (pickup_date request_backwards) = -2 ∧
  (create_booking request_backwards world_booked).1 =
    HTTPException 409 "Selected dates are not available" ∧
  (create_booking request_backwards world_booked).1 ≠
    HTTPException 400 "Drop-off must be after pickup".
Proof.
  split; [apply (bool_decide_unpack _); vm_compute; reflexivity|].
  split; [vm_compute; reflexivity|].
  assert (H : (create_booking request_backwards world_booked).1 =
              HTTPException 409 "Selected dates are not available")
    by (vm_compute; reflexivity).
  split; [exact H|]. rewrite H. discriminate.
Qed.

(** C3, amended.  With the store there, a well-formed car id and a day
    count of zero or less, the request is always turned down and nothing
    is written: as a conflict when a stored booking stands in the way,
    and as "Drop-off must be after pickup" when none does. *)
Theorem create_booking_nonpositive_days (p : Booking) (w : world) :
  is_Some (w_db w) →
  is_Some (ObjectId_of_str (car_id p)) →
  bookings_wf w →
  valid_date (pickup_date p) = true →
  valid_date (dropoff_date p) = true →
  date_sub_days (dropoff_date p) (pickup_date p) <= 0 →
  ((∃ b, b ∈ bookings w ∧ in_the_way b p) →
   create_booking p w = (HTTPException 409 "Selected dates are not available", w)) ∧
  (¬ (∃ b, b ∈ bookings w ∧ in_the_way b p) →
   create_booking p w = (HTTPException 400 "Drop-off must be after pickup", w)).
Proof.
  intros [db Hdb] [oid Hoid] Hwf Hvp Hvd Hdays.
  unfold bookings_wf, bookings in *. rewrite Hdb in *.
  pose proof (overlap_supported p _ Hwf) as Hsup.
  destruct (create_booking_checks p w db oid Hdb Hoid Hsup) as [Hconf Hbad].
  rewrite <- (overlap_found_iff p _ Hwf Hvp Hvd).
  split; [exact Hconf|].
  intros Hno. apply Hbad; [|done].
  by destruct (existsb _ _).
Qed.

Lemma create_booking_nonpositive_days_witness :
  create_booking request_backwards world_booked =
    (HTTPException 409 "Selected dates are not available", world_booked) ∧
  create_booking request_backwards world_seeded =
    (HTTPException 400 "Drop-off must be after pickup", world_seeded).
Proof.
  split.
  - apply (create_booking_nonpositive_days request_backwards world_booked).
    + apply world_booked_db.
    + apply request_car_id_ok.
    + apply world_booked_wf.
    + reflexivity.
    + reflexivity.
    + vm_compute. discriminate.
    + exists stored_booking.
      split; [rewrite bookings_world_booked; apply list_elem_of_here|].
      exists car_C, "active", (Date 2024 1 10), (Date 2024 1 15).
      split; [apply stored_booking_record|]. repeat split; auto.
  - apply (create_booking_nonpositive_days request_backwards world_seeded).
    + apply world_seeded_db.
    + apply request_car_id_ok.
    + unfold bookings_wf. rewrite world_seeded_bookings. constructor.
    + reflexivity.
    + reflexivity.
    + vm_compute. discriminate.
    + intros (b & Hb & _). rewrite world_seeded_bookings in Hb.
      by apply elem_of_nil in Hb.
Defined.

(** ** Accepted bookings *)

(** The dictionary [create_booking] hands to [create_document], and the
    document the store then holds. *)
Definition booking_data (p : Booking) (total : spec_float) : gmap string value :=
  <["total_cost" := VFloat total]>
    (<["dropoff_date" := VStr (date_isoformat (dropoff_date p))]>
       (<["pickup_date" := VStr (date_isoformat (pickup_date p))]> (model_dump p))).

Definition booking_stored (p : Booking) (total : spec_float) (w : world)
  : gmap string value :=
  <["_id" := VObjectId (ObjectId_fresh (w_next_oid w))]>
    (<["created_at" := VDatetime (w_clock w)]> (booking_data p total)).

Lemma create_document_inv name data w id w' :
  data !! "_id" = None →
  create_document name data w = (Ok id, w') →
  ∃ db,
    w_db w = Some db ∧
    id = oid_hex (ObjectId_fresh (w_next_oid w)) ∧
    w' = {| w_db := Some (<[name := collection db name ++
                             [<["_id" := VObjectId (ObjectId_fresh (w_next_oid w))]>
                                (<["created_at" := VDatetime (w_clock w)]> data)]]> db);
            w_next_oid := N.succ (w_next_oid w);
            w_clock := w_clock w |}.
Proof.
  intros Hid. unfold create_document, insert_one, bind, with_id, lift, ret.
  destruct (w_db w) as [db|]; [|discriminate].
  destruct (doc_encodable _); [|discriminate].
  rewrite lookup_insert_ne, Hid by done.
  unfold doc_field. rewrite lookup_insert_eq. simpl.
  intros [= <- <-]. by exists db.
Qed.

Lemma booking_data_no_id p total : booking_data p total !! "_id" = None.
Proof. unfold booking_data, model_dump. by simplify_map_eq. Qed.

(** What an accepted request went through. *)
Lemma create_booking_ok_inv p w r w' :
  create_booking p w = (Ok r, w') →
  ∃ db oid car price,
    w_db w = Some db ∧
    ObjectId_of_str (car_id p) = Some oid ∧
    existsb (matches (overlap_filter p)) (collection db "booking") = false ∧
    0 < date_sub_days (dropoff_date p) (pickup_date p) ∧
    find_one [Field "_id" (Equals (VObjectId oid))] (collection db "car") =
      Ok (Some car) ∧
    py_float (default (VInt 0) (car !! "price_per_day")) = Ok price ∧
    let total :=
      F64.round2
        (F64.mul (F64.of_Z (date_sub_days (dropoff_date p) (pickup_date p))) price) in
    r = {[ "id" := VStr (oid_hex (ObjectId_fresh (w_next_oid w)));
           "total_cost" := VFloat total;
           "status" := VStr "confirmed" ]} ∧
    w' = {| w_db := Some (<["booking" := collection db "booking" ++
                              [booking_stored p total w]]> db);
            w_next_oid := N.succ (w_next_oid w);
            w_clock := w_clock w |}.
Proof.
  unfold create_booking. unfold bind at 1, db_handle.
  destruct (w_db w) as [db|] eqn:Hdb; [|discriminate].
  destruct (ObjectId_of_str (car_id p)) as [oid|] eqn:Hoid; [|discriminate].
  unfold bind at 1, lift, count_documents.
  rewrite overlap_encodable.
  destruct (query_supported _ _ _); [|discriminate].
  rewrite count_positive_exists.
  destruct (existsb _ _) eqn:Hex; [discriminate|].
  destruct (Z.leb_spec (date_sub_days (dropoff_date p) (pickup_date p)) 0)
    as [|Hdays]; [discriminate|].
  unfold bind at 1.
  destruct (find_one _ _) as [[car|]| | |] eqn:Hfind; try discriminate.
  destruct (size car =? 0)%nat; [discriminate|].
  unfold bind at 1.
  destruct (py_float _) as [price| | |] eqn:Hprice; try discriminate.
  unfold bind at 1.
  match goal with
  | |- context [create_document ?n ?d ?w0] =>
      destruct (create_document n d w0) as [[id| | |] w''] eqn:Hcd; try discriminate
  end.
  unfold ret. intros [= <- <-].
  apply create_document_inv in Hcd as (db' & Hdb' & -> & ->);
    [|apply booking_data_no_id].
  rewrite Hdb in Hdb'. injection Hdb' as <-.
  by exists db, oid, car, price.
Qed.

Lemma bson_eqb_oid x o : bson_eqb x (VObjectId o) = true → x = VObjectId o.
Proof.
  destruct x as [| | | | |o'| | |]; unfold bson_eqb, bson_compare; simpl;
    try discriminate.
  rewrite string_compare_eqb. intros H%String.eqb_eq.
  destruct o', o; simpl in *. by subst.
Qed.

Lemma find_one_id_inv oid coll car :
  find_one [Field "_id" (Equals (VObjectId oid))] coll = Ok (Some car) →
  car ∈ coll ∧ car !! "_id" = Some (VObjectId oid).
Proof.
  unfold find_one. destruct (query_encodable _); [|discriminate].
  destruct (query_supported _ _ _); [|discriminate].
  intros [= Hhead].
  destruct (List.filter _ coll) as [|c l] eqn:Hf; [discriminate|].
  injection Hhead as ->.
  assert (Hin : In car (List.filter (matches [Field "_id" (Equals (VObjectId oid))]) coll))
    by (rewrite Hf; by left).
  apply filter_In in Hin as [Hin Hm].
  split; [by apply list_elem_of_In|].
  unfold matches in Hm. simpl in Hm. rewrite andb_true_r in Hm.
  apply bson_eqb_oid in Hm. unfold doc_field in Hm.
  by destruct (car !! "_id"); simpl in Hm; subst.
Qed.

(** ** Rounding to two decimal places *)

(** What it is to round to two decimal places, said without [round]: the
    whole number [n] of hundredths is nearest to [100 * m * 2^e] when it
    lies no further than one half from it, and is the even one of the two
    when that number lies half-way between two.  Both sides are scaled by
    the power of two that makes them whole numbers. *)
Definition nearest_hundredths (m e n : Z) : Prop :=
  let s := 2 ^ Z.max 0 (- e) in
  let v := 100 * m * 2 ^ Z.max 0 e in
  2 * Z.abs (v - n * s) <= s ∧
  (2 * Z.abs (v - n * s) = s → Z.even n = true).

(** [r] is [x] rounded to two decimal places: for a finite [x], the float
    of the decimal with [n] hundredths, [n] being nearest to [100 * x];
    NaN and the infinities are left as they are. *)
Definition rounded_to_2_places (x r : spec_float) : Prop :=
  match F64.to_number x with
  | F64.Fin m e =>
      ∃ n, nearest_hundredths m e n ∧
           F64.to_number r = F64.to_number (F64.of_decimal n 2)
  | _ => r = x
  end.

Lemma div_half_even_nearest a d :
  0 < d →
  2 * Z.abs (a - F64.div_half_even a d * d) <= d ∧
  (2 * Z.abs (a - F64.div_half_even a d * d) = d →
   Z.even (F64.div_half_even a d) = true).
Proof.
  intros Hd. unfold F64.div_half_even.
  pose proof (Z.div_mod a d ltac:(lia)) as E.
  pose proof (Z.mod_pos_bound a d Hd) as Hr.
  destruct (Z.compare_spec (2 * (a mod d)) d) as [H|H|H].
  - destruct (Z.even (a / d)) eqn:Hev.
    + split; [lia|done].
    + split; [lia|]. intros _.
      replace (a / d + 1) with (Z.succ (a / d)) by lia.
      rewrite Z.even_succ, <- Z.negb_even. by rewrite Hev.
  - split; lia.
  - split; lia.
Qed.

Lemma div_half_even_nonneg a d : 0 <= a → 0 < d → 0 <= F64.div_half_even a d.
Proof.
  intros Ha Hd. unfold F64.div_half_even.
  pose proof (Z.div_pos a d Ha Hd).
  destruct (_ ?= _); [destruct (Z.even _)|..]; lia.
Qed.

(** [round(x, 2)] rounds to two decimal places. *)
Lemma round2_rounds x : rounded_to_2_places x (F64.round2 x).
Proof.
  destruct x as [s|s| |s m e]; unfold rounded_to_2_places.
  - exists 0. split; [|reflexivity]. by split.
  - by destruct s.
  - reflexivity.
  - cbn [F64.to_number F64.round2].
    set (h := if 0 <=? e then Z.pos m * 100 * 2 ^ e
              else F64.div_half_even (Z.pos m * 100) (2 ^ (- e))).
    set (sm := if s then Z.neg m else Z.pos m).
    assert (Hsm : sm = if s then - Z.pos m else Z.pos m) by (by destruct s).
    assert (Hh : 0 <= h ∧ nearest_hundredths sm e (if s then - h else h)).
    { unfold h, nearest_hundredths. destruct (Z.leb_spec 0 e) as [He|He].
      - rewrite (Z.max_l 0 (- e)), (Z.max_r 0 e) by lia.
        assert (0 < 2 ^ e) by (apply Z.pow_pos_nonneg; lia).
        change (2 ^ 0) with 1. rewrite Hsm.
        split; [lia|]. destruct s; split; lia.
      - rewrite (Z.max_r 0 (- e)), (Z.max_l 0 e) by lia.
        assert (Hp : 0 < 2 ^ (- e)) by (apply Z.pow_pos_nonneg; lia).
        change (2 ^ 0) with 1.
        destruct (div_half_even_nearest (Z.pos m * 100) (2 ^ (- e)) Hp) as [H1 H2].
        pose proof (div_half_even_nonneg (Z.pos m * 100) (2 ^ (- e)) ltac:(lia) Hp).
        split; [done|]. rewrite Hsm.
        set (n := F64.div_half_even _ _) in *. set (p := 2 ^ (- e)) in *.
        destruct s.
        + rewrite Z.even_opp. split; [lia|]. intros Ht. apply H2. lia.
        + split; [lia|]. intros Ht. apply H2. lia. }
    destruct Hh as [Hh0 Hn].
    exists (if s then - h else h). split; [exact Hn|].
    destruct h as [|h'|h']; [by destruct s| |lia].
    by destruct s.
Qed.

(** The request of the examples: car C, whose price is 320.0 a day, for
    the five days from 2024-02-01, with a total of 1.0 supplied by the
    client. *)
Definition request_five_days : Booking :=
  request (Date 2024 2 1) (Date 2024 2 6) (Some (F64.of_Z 1)).

Definition response_five_days : gmap string value :=
  match (create_booking request_five_days world_seeded).1 with
  | Ok r => r
  | _ => ∅
  end.

Definition world_five_days : world :=
  (create_booking request_five_days world_seeded).2.

Lemma create_booking_five_days :
  create_booking request_five_days world_seeded =
    (Ok response_five_days, world_five_days).
Proof.
  vm_cast_no_check (eq_refl (create_booking request_five_days world_seeded)).
Qed.

(** C2.  An accepted request is answered with
    [round(days * price_per_day, 2)], where [days] is the drop-off date
    minus the pickup date, a positive number of whole days, and the price
    is that of the car the store returns for the request's car id; the
    total is the product of the two as floats, rounded to two decimal
    places. *)
Theorem create_booking_total_cost (p : Booking) (w : world)
    (r : gmap string value) (w' : world) :
  create_booking p w = (Ok r, w') →
  ∃ oid car price total,
    ObjectId_of_str (car_id p) = Some oid ∧
    find_one [Field "_id" (Equals (VObjectId oid))] (cars w) = Ok (Some car) ∧
    car ∈ cars w ∧ car !! "_id" = Some (VObjectId oid) ∧
    py_float (default (VInt 0) (car !! "price_per_day")) = Ok price ∧
    (∀ x, car !! "price_per_day" = Some (VFloat x) → price = x) ∧
    0 < date_sub_days (dropoff_date p) (pickup_date p) ∧
    r !! "total_cost" = Some (VFloat total) ∧
    total =
      F64.round2
        (F64.mul (F64.of_Z (date_sub_days (dropoff_date p) (pickup_date p)))
           price) ∧
    rounded_to_2_places
      (F64.mul (F64.of_Z (date_sub_days (dropoff_date p) (pickup_date p))) price)
      total.
Proof.
  intros H.
  apply create_booking_ok_inv in H
    as (db & oid & car & price & Hdb & Hoid & _ & Hdays & Hfind & Hprice & Hr & _).
  exists oid, car, price. eexists. unfold cars. rewrite Hdb.
  destruct (find_one_id_inv _ _ _ Hfind) as [Hin Hid].
  split; [done|]. split; [done|]. split; [done|]. split; [done|].
  split; [done|].
  split; [intros x Hx; rewrite Hx in Hprice; simpl in Hprice; congruence|].
  split; [done|].
  split; [rewrite Hr; by simplify_map_eq|].
  split; [reflexivity|]. apply round2_rounds.
Qed.

(** A store with one more car, at 19.999 a day, and a request for it over
    the three days from 2024-03-01. *)
Definition car_odd_price : gmap string value :=
  {[ "_id" := VObjectId (Oid "0000000000000000000000aa");
     "title" := VStr "Alto"; "brand" := VStr "Suzuki"; "model" := VStr "Alto K10";
     "year" := VInt 2020; "type" := VStr "hatchback";
     "transmission" := VStr "manual"; "fuel_type" := VStr "petrol";
     "seats" := VInt 4;
     "price_per_day" := VFloat (F64.of_decimal 19999 3) ]}.

Definition world_odd_price : world :=
  (insert_one "car" car_odd_price world_seeded).2.

Definition request_odd_price : Booking :=
  {| car_id := "0000000000000000000000aa"; user_name := "Ada";
     email := "ada@example.org"; phone := None;
     pickup_date := Date 2024 3 1; dropoff_date := Date 2024 3 4;
     pickup_location := None; dropoff_location := None;
     total_cost := None; status := Booking_status_default |}.

Definition response_odd_price : gmap string value :=
  match (create_booking request_odd_price world_odd_price).1 with
  | Ok r => r
  | _ => ∅
  end.

Lemma create_booking_odd_price :
  create_booking request_odd_price world_odd_price =
    (Ok response_odd_price, (create_booking request_odd_price world_odd_price).2).
Proof.
  vm_cast_no_check (eq_refl (create_booking request_odd_price world_odd_price)).
Qed.

Lemma find_car_odd_price :
  find_one [Field "_id" (Equals (VObjectId (Oid "0000000000000000000000aa")))]
    (cars world_odd_price) = Ok (Some car_odd_price).
Proof.
  vm_cast_no_check
    (eq_refl (find_one
                [Field "_id" (Equals (VObjectId (Oid "0000000000000000000000aa")))]
                (cars world_odd_price))).
Qed.

Lemma create_booking_total_cost_witness :
  date_sub_days (dropoff_date request_odd_price) (pickup_date request_odd_price) = 3 ∧
  car_odd_price !! "price_per_day" = Some (VFloat (F64.of_decimal 19999 3)) ∧
  response_odd_price !! "total_cost" = Some (VFloat (F64.of_Z 60)) ∧
  F64.mul (F64.of_Z 3) (F64.of_decimal 19999 3) ≠ F64.of_Z 60 ∧
  rounded_to_2_places (F64.mul (F64.of_Z 3) (F64.of_decimal 19999 3)) (F64.of_Z 60).
Proof.
  destruct (create_booking_total_cost request_odd_price world_odd_price
              response_odd_price _ create_booking_odd_price)
    as (oid & car & price & total & Hoid & Hfind & _ & _ & _ & Hx & _ &
        Htotal & Heq & Hrounded).
  assert (Hdays : date_sub_days (dropoff_date request_odd_price)
                    (pickup_date request_odd_price) = 3) by reflexivity.
  assert (Hlook : car_odd_price !! "price_per_day" =
                  Some (VFloat (F64.of_decimal 19999 3))) by reflexivity.
  assert (Hoid' : ObjectId_of_str (car_id request_odd_price) =
                  Some (Oid "0000000000000000000000aa")) by reflexivity.
  rewrite Hoid' in Hoid. injection Hoid as <-.
  rewrite find_car_odd_price in Hfind.
  assert (Hcar : car = car_odd_price) by congruence. subst car.
  rewrite (Hx _ Hlook), Hdays in Heq, Hrounded.
  assert (Hsixty : F64.round2 (F64.mul (F64.of_Z 3) (F64.of_decimal 19999 3)) =
                   F64.of_Z 60) by (vm_compute; reflexivity).
  rewrite Hsixty in Heq. subst total.
  split; [exact Hdays|]. split; [exact Hlook|]. split; [exact Htotal|].
  split; [vm_compute; discriminate|exact Hrounded].
Defined.

Example response_five_days_total :
  response_five_days !! "total_cost" = Some (VFloat (F64.of_Z 1600)).
Proof. vm_compute. reflexivity. Qed.

Lemma bookings_after_insert db l n t :
  bookings {| w_db := Some (<["booking" := l]> db); w_next_oid := n; w_clock := t |} = l.
Proof. unfold bookings. simpl. apply collection_insert_eq. Qed.

(** C4.  When the request leaves [status] out, so that the schema default
    "active" stands in for it, an accepted booking is answered with
    status "confirmed" while the document added to the store, the one
    whose id the answer carries, has status "active": the two differ. *)
Theorem create_booking_status_mismatch (p : Booking) (w : world)
    (r : gmap string value) (w' : world) :
  create_booking p w = (Ok r, w') →
  status p = Booking_status_default →
  ∃ stored o,
    bookings w' = bookings w ++ [stored] ∧
    stored !! "_id" = Some (VObjectId o) ∧
    r !! "id" = Some (VStr (oid_hex o)) ∧
    r !! "status" = Some (VStr "confirmed") ∧
    stored !! "status" = Some (VStr "active") ∧
    r !! "status" ≠ stored !! "status".
Proof.
  intros H Hst.
  apply create_booking_ok_inv in H
    as (db & oid & car & price & Hdb & _ & _ & _ & _ & _ & Hr & Hw').
  set (total := F64.round2 _) in *.
  exists (booking_stored p total w), (ObjectId_fresh (w_next_oid w)).
  assert (Hstored : booking_stored p total w !! "status" = Some (VStr "active")).
  { unfold booking_stored, booking_data, model_dump.
    simplify_map_eq. by rewrite Hst. }
  assert (Hresp : r !! "status" = Some (VStr "confirmed"))
    by (rewrite Hr; by simplify_map_eq).
  split; [rewrite Hw', bookings_after_insert; unfold bookings; by rewrite Hdb|].
  split; [unfold booking_stored; by rewrite lookup_insert_eq|].
  split; [rewrite Hr; by simplify_map_eq|].
  split; [exact Hresp|]. split; [exact Hstored|].
  rewrite Hresp, Hstored. discriminate.
Qed.

Lemma create_booking_status_mismatch_witness :
  ∃ stored o,
    bookings world_five_days = bookings world_seeded ++ [stored] ∧
    stored !! "_id" = Some (VObjectId o) ∧
    response_five_days !! "id" = Some (VStr (oid_hex o)) ∧
    response_five_days !! "status" = Some (VStr "confirmed") ∧
    stored !! "status" = Some (VStr "active") ∧
    response_five_days !! "status" ≠ stored !! "status".
Proof.
  apply (create_booking_status_mismatch request_five_days world_seeded
           response_five_days world_five_days).
  - apply create_booking_five_days.
  - reflexivity.
Defined.

(** C10.  The document an accepted request adds to the store has, as
    [total_cost], the computed [round(days * price_per_day, 2)] that the
    answer reports, whatever [total_cost] the request body carried. *)
Theorem create_booking_stores_computed_cost (p : Booking) (w : world)
    (r : gmap string value) (w' : world) :
  create_booking p w = (Ok r, w') →
  ∃ stored oid car price,
    bookings w' = bookings w ++ [stored] ∧
    ObjectId_of_str (car_id p) = Some oid ∧
    find_one [Field "_id" (Equals (VObjectId oid))] (cars w) = Ok (Some car) ∧
    py_float (default (VInt 0) (car !! "price_per_day")) = Ok price ∧
    let computed :=
      F64.round2
        (F64.mul (F64.of_Z (date_sub_days (dropoff_date p) (pickup_date p))) price) in
    stored !! "total_cost" = Some (VFloat computed) ∧
    r !! "total_cost" = Some (VFloat computed) ∧
    (∀ supplied, total_cost p = Some supplied →
                 stored !! "total_cost" = Some (VFloat computed)).
Proof.
  intros H.
  apply create_booking_ok_inv in H
    as (db & oid & car & price & Hdb & Hoid & _ & _ & Hfind & Hprice & Hr & Hw').
  set (total := F64.round2 _) in *.
  exists (booking_stored p total w), oid, car, price.
  assert (Hstored : booking_stored p total w !! "total_cost" = Some (VFloat total)).
  { unfold booking_stored, booking_data. by simplify_map_eq. }
  split; [rewrite Hw', bookings_after_insert; unfold bookings; by rewrite Hdb|].
  split; [done|]. split; [unfold cars; by rewrite Hdb|]. split; [done|].
  split; [exact Hstored|].
  split; [rewrite Hr; by simplify_map_eq|].
  intros _ _. exact Hstored.
Qed.

Lemma create_booking_stores_computed_cost_witness :
  total_cost request_five_days = Some (F64.of_Z 1) ∧
  ∃ stored oid car price,
    bookings world_five_days = bookings world_seeded ++ [stored] ∧
    ObjectId_of_str (car_id request_five_days) = Some oid ∧
    find_one [Field "_id" (Equals (VObjectId oid))] (cars world_seeded) =
      Ok (Some car) ∧
    py_float (default (VInt 0) (car !! "price_per_day")) = Ok price ∧
    let computed :=
      F64.round2
        (F64.mul
           (F64.of_Z (date_sub_days (dropoff_date request_five_days)
                        (pickup_date request_five_days))) price) in
    stored !! "total_cost" = Some (VFloat computed) ∧
    response_five_days !! "total_cost" = Some (VFloat computed) ∧
    (∀ supplied, total_cost request_five_days = Some supplied →
                 stored !! "total_cost" = Some (VFloat computed)).
Proof.
  split; [reflexivity|].
  apply (create_booking_stores_computed_cost request_five_days world_seeded
           response_five_days world_five_days).
  apply create_booking_five_days.
Defined.

Example stored_five_days_total :
  (λ b : gmap string value, b !! "total_cost") <$> last (bookings world_five_days)
  = Some (Some (VFloat (F64.of_Z 1600))).
Proof. vm_compute. reflexivity. Qed.

(** ** The car search *)

Lemma outcome_map_inv {A B} (f : A → outcome B) l r :
  outcome_map f l = Ok r → Forall2 (λ x y, f x = Ok y) l r.
Proof.
  revert r. induction l as [|x l IH]; intros r; simpl.
  - intros [= <-]. constructor.
  - destruct (f x) as [y| | |] eqn:Hx; simpl; try discriminate.
    destruct (outcome_map f l) as [ys| | |]; simpl; try discriminate.
    intros [= <-]. constructor; auto.
Qed.

(** Serialising touches [_id] and [id] and renders the datetimes; the
    other fields are read as they were stored. *)
Lemma serialize_doc_lookup d r k :
  serialize_doc d = Ok r → k ≠ "id" → k ≠ "_id" →
  r !! k = rendered <$> d !! k.
Proof.
  intros H Hk Hk'. unfold serialize_doc in H.
  destruct (size d =? 0)%nat eqn:Hs.
  - injection H as <-. apply Nat.eqb_eq, map_size_empty_iff in Hs. subst d.
    by rewrite lookup_empty.
  - assert (Hfin : ∀ d1 : gmap string value,
               d1 !! k = d !! k →
               Ok (foldl isoformat_field d1 (map_to_list d1)) = Ok r →
               r !! k = rendered <$> d !! k).
    { intros d1 Hd1 [= <-]. by rewrite isoformat_all_lookup, Hd1. }
    destruct (d !! "_id") as [v|] eqn:Hid.
    + destruct (py_truthy v).
      * destruct (py_str v); [|discriminate]. simpl in H.
        apply Hfin in H; [done|].
        by rewrite lookup_insert_ne, lookup_delete_ne.
      * simpl in H. apply Hfin in H; [done|]. by rewrite lookup_insert_ne.
    + simpl in H. apply Hfin in H; [done|]. by rewrite lookup_insert_ne.
Qed.

Lemma insert_sorted_perm {A} (leb : A → A → bool) x l :
  insert_sorted leb x l ≡ₚ x :: l.
Proof.
  induction l as [|y l IH]; simpl; [done|].
  destruct (leb x y); [done|]. rewrite IH. apply Permutation_swap.
Qed.

Lemma sort_docs_perm spec l : sort_docs spec l ≡ₚ l.
Proof.
  induction l as [|x l IH]; simpl; [done|].
  rewrite insert_sorted_perm. by rewrite IH.
Qed.

Lemma apply_limit_elem n l x : x ∈ apply_limit n l → x ∈ l.
Proof.
  unfold apply_limit. destruct (n =? 0); [done|].
  destruct (_ <=? _); [done|].
  intros H. rewrite <- (take_drop (Z.to_nat (Z.abs n)) l).
  apply elem_of_app. by left.
Qed.

Lemma cursor_list_inv spec limit filt coll docs :
  cursor_list (cursor_sort [spec] (cursor_limit limit (find filt coll))) = Ok docs →
  query_supported filt [spec.1] coll = true ∧
  docs = apply_limit limit (sort_docs [spec] (List.filter (matches filt) coll)).
Proof.
  unfold cursor_list. simpl.
  destruct (query_encodable filt && limit_encodable limit); [|discriminate].
  destruct (query_supported _ _ _); [|discriminate].
  by intros [= <-].
Qed.

Lemma cursor_list_elem spec limit filt coll docs d :
  cursor_list (cursor_sort [spec] (cursor_limit limit (find filt coll))) = Ok docs →
  d ∈ docs → d ∈ coll ∧ matches filt d = true.
Proof.
  intros [_ ->]%cursor_list_inv Hd.
  apply apply_limit_elem in Hd. rewrite sort_docs_perm in Hd.
  apply list_elem_of_In, filter_In in Hd as [Hd Hm].
  split; [by apply list_elem_of_In|done].
Qed.

(** What a search that answers went through: the seed step, then, when
    the store is there, one cursor over the car collection and the
    serialisation of what it yields. *)
Lemma list_cars_inv q type brand transmission fuel_type seats min_price max_price
    sort limit w res w' :
  list_cars q type brand transmission fuel_type seats min_price max_price
    sort limit w = (Ok res, w') →
  ensure_seed w = (Ok tt, w') ∧
  ((w_db w' = None ∧ res = []) ∨
   ∃ docs,
     cursor_list
       (cursor_sort [cars_sort_spec sort]
          (cursor_limit limit
             (find (cars_filter q type brand transmission fuel_type seats
                      min_price max_price) (cars w')))) = Ok docs ∧
     outcome_map serialize_doc docs = Ok res).
Proof.
  unfold list_cars, bind at 1.
  destruct (ensure_seed w) as [[[]| | |] w1] eqn:Hseed; try discriminate.
  unfold bind at 1, db_handle, cars.
  destruct (w_db w1) as [db|] eqn:Hdb.
  - unfold bind, lift.
    destruct (cursor_list _) as [docs| | |] eqn:Hcur; try discriminate.
    intros [= Hres <-]. split; [done|]. right. rewrite Hdb.
    exists docs. by rewrite Hcur.
  - unfold ret. intros [= <- <-]. split; [done|]. left. by rewrite Hdb.
Qed.

Lemma matches_app a b d : matches (a ++ b) d = matches a d && matches b d.
Proof. unfold matches. apply forallb_app. Qed.

Lemma bson_eqb_str x s : bson_eqb x (VStr s) = true → x = VStr s.
Proof.
  destruct x as [| | | |s'| | | |]; unfold bson_eqb, bson_compare; simpl;
    try discriminate.
  rewrite string_compare_eqb. by intros ->%String.eqb_eq.
Qed.

Lemma doc_field_holds (P : value → bool) d k :
  P VNone = false → P (doc_field d k) = true →
  ∃ v, d !! k = Some v ∧ P v = true.
Proof.
  unfold doc_field. destruct (d !! k) as [v|]; simpl; [eauto|congruence].
Qed.

Lemma when_truthy_str_matches (o : option string) (c : string → clause) d s :
  matches (when_truthy VStr o c) d = true → o = Some s → s ≠ "" →
  clause_holds (c s) d = true.
Proof.
  intros H -> Hs. unfold when_truthy in H. simpl in H.
  apply String.eqb_neq in Hs. rewrite Hs in H. simpl in H.
  by rewrite andb_true_r in H.
Qed.

Lemma field_equals_str d k s :
  clause_holds (Field k (Equals (VStr s))) d = true → d !! k = Some (VStr s).
Proof.
  simpl. intros H.
  apply (doc_field_holds (λ v, bson_eqb v (VStr s))) in H as (v & Hv & E); [|done].
  apply bson_eqb_str in E. by subst.
Qed.

Lemma field_regex d k p opts :
  fields_hold [(k, Operators [OpRegex p opts])] d = true →
  ∃ t, d !! k = Some (VStr t) ∧ regex_search p opts t = true.
Proof.
  unfold fields_hold. simpl. rewrite !andb_true_r. unfold doc_field.
  destruct (d !! k) as [[| | | |t| | | |]|]; simpl; try discriminate. eauto.
Qed.

(** A pattern without special characters is found where the text holds
    it, letter case aside. *)
Definition plain_text (s : string) : bool :=
  forallb (λ c, negb (is_regex_meta c)) (list_ascii_of_string s).

Fixpoint ci_prefix (a s : string) : bool :=
  match a, s with
  | EmptyString, _ => true
  | String _ _, EmptyString => false
  | String x a', String y s' =>
      Ascii.eqb (lower_char x) (lower_char y) && ci_prefix a' s'
  end.

Fixpoint ci_substring (a s : string) : bool :=
  ci_prefix a s ||
  match s with
  | EmptyString => false
  | String _ s' => ci_substring a s'
  end.

Lemma regex_parse_plain s :
  plain_text s = true →
  regex_parse s = Some (map Lit (list_ascii_of_string s)).
Proof.
  unfold plain_text. induction s as [|c s IH]; simpl; [done|].
  intros [Hc Hs]%andb_prop. apply negb_true_iff in Hc.
  destruct (Ascii.eqb_spec c ".") as [->|_]; [discriminate|].
  destruct (Ascii.eqb_spec c "\") as [->|_]; [discriminate|].
  rewrite Hc, IH by done. reflexivity.
Qed.

Lemma match_here_plain s t :
  match_here true (map Lit (list_ascii_of_string s)) t = ci_prefix s t.
Proof.
  revert t. induction s as [|c s IH]; intros [|y t]; simpl; try done.
  by rewrite IH.
Qed.

Lemma regex_search_plain s t :
  plain_text s = true → regex_search s "i" t = ci_substring s t.
Proof.
  intros Hs. unfold regex_search. rewrite regex_parse_plain by done.
  change (String.eqb "i" "i") with true.
  induction t as [|y t IH]; simpl.
  - by rewrite match_here_plain.
  - by rewrite match_here_plain, IH.
Qed.

Lemma bson_eqb_rank a b : bson_eqb a b = true → bson_rank a = bson_rank b.
Proof.
  unfold bson_eqb, bson_compare.
  destruct (bson_rank a ?= bson_rank b) eqn:E; try discriminate.
  intros _. by apply Z.compare_eq.
Qed.

Lemma in_range_leb_rank a b : in_range_leb a b = true → bson_rank a = bson_rank b.
Proof. unfold in_range_leb. intros [H _]%andb_prop. by apply Z.eqb_eq. Qed.

Lemma rendered_number v : bson_rank v = 2 → rendered v = v.
Proof. by destruct v. Qed.

(** What the filter built from the query parameters demands of a stored
    document. *)
Lemma cars_filter_sound q type brand transmission fuel_type seats
    min_price max_price d :
  matches (cars_filter q type brand transmission fuel_type seats
             min_price max_price) d = true →
  (∀ s, q = Some s → s ≠ "" →
     ∃ k t, k ∈ ["title"; "brand"; "model"] ∧ d !! k = Some (VStr t) ∧
            regex_search s "i" t = true) ∧
  (∀ s, type = Some s → s ≠ "" → d !! "type" = Some (VStr s)) ∧
  (∀ s, brand = Some s → s ≠ "" → d !! "brand" = Some (VStr s)) ∧
  (∀ s, transmission = Some s → s ≠ "" → d !! "transmission" = Some (VStr s)) ∧
  (∀ s, fuel_type = Some s → s ≠ "" → d !! "fuel_type" = Some (VStr s)) ∧
  (∀ n, seats = Some n → n ≠ 0 →
     ∃ v, d !! "seats" = Some v ∧ bson_eqb v (VInt n) = true) ∧
  (∀ lo, min_price = Some lo →
     ∃ v, d !! "price_per_day" = Some v ∧ in_range_leb (VFloat lo) v = true) ∧
  (∀ hi, max_price = Some hi →
     ∃ v, d !! "price_per_day" = Some v ∧ in_range_leb v (VFloat hi) = true).
Proof.
  unfold cars_filter. rewrite !matches_app, !andb_true_iff.
  intros (Hq & Hty & Hbr & Htr & Hfu & Hse & Hpr).
  split; [|split; [|split; [|split; [|split; [|split; [|split]]]]]].
  - intros s Hs Hne.
    pose proof (when_truthy_str_matches _ _ _ _ Hq Hs Hne) as H.
    simpl in H. rewrite orb_false_r in H.
    apply orb_prop in H as [H|H]; [|apply orb_prop in H as [H|H]];
      apply field_regex in H as (t & Ht & Hre).
    + exists "title", t. repeat split; [|done..]. apply list_elem_of_here.
    + exists "brand", t. repeat split; [|done..].
      apply list_elem_of_further, list_elem_of_here.
    + exists "model", t. repeat split; [|done..].
      do 2 apply list_elem_of_further. apply list_elem_of_here.
  - intros s Hs Hne. apply field_equals_str.
    exact (when_truthy_str_matches _ _ _ _ Hty Hs Hne).
  - intros s Hs Hne. apply field_equals_str.
    exact (when_truthy_str_matches _ _ _ _ Hbr Hs Hne).
  - intros s Hs Hne. apply field_equals_str.
    exact (when_truthy_str_matches _ _ _ _ Htr Hs Hne).
  - intros s Hs Hne. apply field_equals_str.
    exact (when_truthy_str_matches _ _ _ _ Hfu Hs Hne).
  - intros n -> Hn. unfold when_truthy in Hse. simpl in Hse.
    apply Z.eqb_neq in Hn. rewrite Hn in Hse. simpl in Hse.
    rewrite andb_true_r in Hse.
    by apply (doc_field_holds (λ v, bson_eqb v (VInt n))) in Hse.
  - intros lo ->.
    assert (H : in_range_leb (VFloat lo) (doc_field d "price_per_day") = true).
    { destruct max_price; simpl in Hpr; rewrite ?andb_true_r in Hpr;
        [rewrite andb_true_iff in Hpr; tauto | done]. }
    by apply (doc_field_holds (in_range_leb (VFloat lo))) in H.
  - intros hi ->.
    assert (H : in_range_leb (doc_field d "price_per_day") (VFloat hi) = true).
    { destruct min_price; simpl in Hpr; rewrite ?andb_true_r in Hpr;
        [rewrite andb_true_iff in Hpr; tauto | done]. }
    by apply (doc_field_holds (λ v, in_range_leb v (VFloat hi))) in H.
Qed.

Definition found (o : outcome (list (gmap string value)) * world)
  : list (gmap string value) :=
  match o.1 with Ok l => l | _ => [] end.

(** Two searches over the seeded store: one for cars with zero seats, one
    for the text of a single dot. *)
Definition search_seats_zero : outcome (list (gmap string value)) * world :=
  list_cars None None None None None (Some 0) None None (Some "popular") 50
    world_seeded.

Definition search_dot : outcome (list (gmap string value)) * world :=
  list_cars (Some ".") None None None None None None None (Some "popular") 50
    world_seeded.

Lemma search_seats_zero_ok :
  search_seats_zero = (Ok (found search_seats_zero), world_seeded).
Proof. vm_cast_no_check (eq_refl search_seats_zero). Qed.

Lemma search_dot_ok : search_dot = (Ok (found search_dot), world_seeded).
Proof. vm_cast_no_check (eq_refl search_dot). Qed.

(** C5, as stated, fails twice.  A search for [seats = 0] returns the car
    with four seats, and a search for the text "." returns the Apex GT-R,
    which has no dot in its title, brand or model. *)
Lemma list_cars_filters_counterexample :
  (∃ res w' c,
     list_cars None None None None None (Some 0) None None (Some "popular") 50
       world_seeded = (Ok res, w') ∧
     c ∈ res ∧ c !! "seats" = Some (VInt 4)) ∧
  (∃ res w' c,
     list_cars (Some ".") None None None None None None None (Some "popular") 50
       world_seeded = (Ok res, w') ∧
     c ∈ res ∧
     c !! "title" = Some (VStr "Apex GT-R") ∧
     c !! "brand" = Some (VStr "Nissan") ∧
     c !! "model" = Some (VStr "GT-R Nismo") ∧
     ci_substring "." "Apex GT-R" = false ∧
     ci_substring "." "Nissan" = false ∧
     ci_substring "." "GT-R Nismo" = false).
Proof.
  split.
  - exists (found search_seats_zero), world_seeded,
      (default ∅ (head (found search_seats_zero))).
    split; [exact search_seats_zero_ok|].
    split; [|vm_compute; reflexivity].
    apply list_elem_of_In.
    assert (H : found search_seats_zero =
                default ∅ (head (found search_seats_zero))
                :: tail (found search_seats_zero))
      by (vm_cast_no_check (eq_refl (found search_seats_zero))).
    rewrite H at 2. by left.
  - exists (found search_dot), world_seeded, (default ∅ (head (found search_dot))).
    split; [exact search_dot_ok|].
    split; [|repeat split; vm_compute; reflexivity].
    apply list_elem_of_In.
    assert (H : found search_dot =
                default ∅ (head (found search_dot)) :: tail (found search_dot))
      by (vm_cast_no_check (eq_refl (found search_dot))).
    rewrite H at 2. by left.
Qed.

(** What a search that answers has returned: documents that meet every
    clause the filter was built with. *)
Lemma list_cars_sound
    (q type brand transmission fuel_type : option string) (seats : option Z)
    (min_price max_price : option spec_float) (sort : option string) (limit : Z)
    (w : world) (res : list (gmap string value)) (w' : world)
    (c : gmap string value) :
  list_cars q type brand transmission fuel_type seats min_price max_price
    sort limit w = (Ok res, w') →
  c ∈ res →
  (∀ s, q = Some s → s ≠ "" →
     ∃ k t, k ∈ ["title"; "brand"; "model"] ∧ c !! k = Some (VStr t) ∧
            regex_search s "i" t = true ∧
            (plain_text s = true → ci_substring s t = true)) ∧
  (∀ s, type = Some s → s ≠ "" → c !! "type" = Some (VStr s)) ∧
  (∀ s, brand = Some s → s ≠ "" → c !! "brand" = Some (VStr s)) ∧
  (∀ s, transmission = Some s → s ≠ "" → c !! "transmission" = Some (VStr s)) ∧
  (∀ s, fuel_type = Some s → s ≠ "" → c !! "fuel_type" = Some (VStr s)) ∧
  (∀ n, seats = Some n → n ≠ 0 →
     ∃ v, c !! "seats" = Some v ∧ bson_eqb v (VInt n) = true) ∧
  (∀ lo, min_price = Some lo →
     ∃ v, c !! "price_per_day" = Some v ∧ in_range_leb (VFloat lo) v = true) ∧
  (∀ hi, max_price = Some hi →
     ∃ v, c !! "price_per_day" = Some v ∧ in_range_leb v (VFloat hi) = true).
Proof.
  intros Hrun Hc.
  apply list_cars_inv in Hrun as [_ [[_ ->]|(docs & Hcur & Hser)]];
    [by apply elem_of_nil in Hc|].
  apply outcome_map_inv in Hser.
  apply list_elem_of_lookup in Hc as [i Hi].
  destruct (Forall2_lookup_r _ _ _ _ _ Hser Hi) as (d & Hd & Hdc).
  assert (Hdin : d ∈ docs) by (apply list_elem_of_lookup; eauto).
  destruct (cursor_list_elem _ _ _ _ _ _ Hcur Hdin) as [_ Hm].
  apply cars_filter_sound in Hm
    as (Hq & Hty & Hbr & Htr & Hfu & Hse & Hlo & Hhi).
  assert (Hstr : ∀ k s, k ≠ "id" → k ≠ "_id" →
                        d !! k = Some (VStr s) → c !! k = Some (VStr s)).
  { intros k s Hk Hk' E. by rewrite (serialize_doc_lookup d c k), E. }
  assert (Hnum : ∀ k v, k ≠ "id" → k ≠ "_id" → bson_rank v = 2 →
                        d !! k = Some v → c !! k = Some v).
  { intros k v Hk Hk' Hr E.
    rewrite (serialize_doc_lookup d c k), E by done. simpl.
    by rewrite rendered_number. }
  split; [|split; [|split; [|split; [|split; [|split; [|split]]]]]].
  - intros s Hs Hne. destruct (Hq s Hs Hne) as (k & t & Hk & Hkt & Hre).
    exists k, t. split; [done|]. split.
    + apply Hstr; [..|done];
        intros ->; repeat (apply elem_of_cons in Hk as [Hk|Hk]; [discriminate|]);
        by apply elem_of_nil in Hk.
    + split; [done|]. intros Hp. by rewrite <- regex_search_plain.
  - intros s Hs Hne. apply Hstr; [done..|]. by apply Hty.
  - intros s Hs Hne. apply Hstr; [done..|]. by apply Hbr.
  - intros s Hs Hne. apply Hstr; [done..|]. by apply Htr.
  - intros s Hs Hne. apply Hstr; [done..|]. by apply Hfu.
  - intros n Hn Hne. destruct (Hse n Hn Hne) as (v & Hv & E).
    exists v. split; [|done]. apply Hnum; [done..| |done].
    by rewrite (bson_eqb_rank _ _ E).
  - intros lo Hl. destruct (Hlo lo Hl) as (v & Hv & E).
    exists v. split; [|done]. apply Hnum; [done..| |done].
    by rewrite <- (in_range_leb_rank _ _ E).
  - intros hi Hh. destruct (Hhi hi Hh) as (v & Hv & E).
    exists v. split; [|done]. apply Hnum; [done..| |done].
    by rewrite (in_range_leb_rank _ _ E).
Qed.

(** ** The store's order is total *)

Lemma lex_compare_antisym a : ∀ b, lex_compare b a = CompOpp (lex_compare a b).
Proof.
  induction a as [|x a IH]; intros [|y b]; simpl; try done.
  rewrite (Z.compare_antisym x y). destruct (x ?= y); simpl; auto.
Qed.

Lemma number_compare_antisym a b :
  F64.number_compare b a = CompOpp (F64.number_compare a b).
Proof.
  destruct a as [| |m1 e1|], b as [| |m2 e2|]; simpl; try done.
  rewrite (Z.min_comm e2 e1). apply Z.compare_antisym.
Qed.

Lemma bson_compare_antisym a b : bson_compare b a = CompOpp (bson_compare a b).
Proof.
  unfold bson_compare.
  rewrite (Z.compare_antisym (bson_rank a) (bson_rank b)).
  destruct a, b;
    cbn -[F64.number_compare String.compare lex_compare Bool.compare];
    try done;
    auto using number_compare_antisym, String.compare_antisym, lex_compare_antisym.
  by destruct b, b0.
Qed.

Lemma sort_compare_antisym spec a b :
  sort_compare spec b a = CompOpp (sort_compare spec a b).
Proof.
  induction spec as [|[k dir] spec IH]; simpl; [done|].
  rewrite (bson_compare_antisym (doc_field a k) (doc_field b k)).
  destruct (dir <? 0), (bson_compare (doc_field a k) (doc_field b k)); simpl; auto.
Qed.

Lemma sort_leb_total spec a b : sort_leb spec a b = false → sort_leb spec b a = true.
Proof.
  unfold sort_leb. rewrite (sort_compare_antisym spec a b).
  by destruct (sort_compare spec a b).
Qed.

Lemma sort_leb_single k dir a b :
  sort_leb [(k, dir)] a b =
  if dir <? 0 then bson_leb (doc_field b k) (doc_field a k)
  else bson_leb (doc_field a k) (doc_field b k).
Proof.
  unfold sort_leb, bson_leb. simpl.
  rewrite (bson_compare_antisym (doc_field a k) (doc_field b k)).
  by destruct (dir <? 0), (bson_compare (doc_field a k) (doc_field b k)).
Qed.

(** ** Sorting sorts *)

Section Insertion.
Context {A : Type} (leb : A → A → bool).
Hypothesis leb_total : ∀ a b, leb a b = false → leb b a = true.

Let le (a b : A) : Prop := leb a b = true.

Lemma insert_sorted_hd x y l :
  le y x → HdRel le y l → HdRel le y (insert_sorted leb x l).
Proof.
  intros Hyx Hl. destruct l as [|z l]; simpl.
  - by constructor.
  - destruct (leb x z); constructor; [done|]. by inversion Hl.
Qed.

Lemma insert_sorted_sorted x l :
  Sorted le l → Sorted le (insert_sorted leb x l).
Proof.
  induction 1 as [|y l Hs IH Hhd]; simpl.
  - repeat constructor.
  - destruct (leb x y) eqn:E.
    + constructor; [by constructor|]. by constructor.
    + constructor; [done|]. apply insert_sorted_hd; [|done].
      by apply leb_total.
Qed.

Lemma foldr_insert_sorted l : Sorted le (foldr (insert_sorted leb) [] l).
Proof.
  induction l as [|x l IH]; simpl; [constructor|].
  by apply insert_sorted_sorted.
Qed.
End Insertion.

Lemma Sorted_take {A} (R : A → A → Prop) n l : Sorted R l → Sorted R (take n l).
Proof.
  revert n. induction l as [|x l IH]; intros [|n] Hs; simpl; try constructor.
  - apply IH. by inversion Hs.
  - inversion Hs as [|? ? _ Hhd]; subst.
    destruct l as [|y l], n as [|n]; simpl; constructor. by inversion Hhd.
Qed.

Lemma Sorted_Forall2 {A B} (R : A → A → Prop) (R' : B → B → Prop)
    (Q : A → B → Prop) l r :
  (∀ a b a' b', Q a a' → Q b b' → R a b → R' a' b') →
  Forall2 Q l r → Sorted R l → Sorted R' r.
Proof.
  intros HR HQ. induction HQ as [|a a' l r Haa' HQ IH]; intros Hs.
  - constructor.
  - inversion Hs as [|? ? Hs' Hhd]; subst. constructor; [by apply IH|].
    destruct HQ as [|b b' l r Hbb' HQ]; constructor.
    inversion Hhd; subst. eapply HR; eauto.
Qed.

Lemma sort_docs_sorted spec l :
  Sorted (λ a b, sort_leb spec a b = true) (sort_docs spec l).
Proof. apply foldr_insert_sorted, sort_leb_total. Qed.

Lemma apply_limit_sorted (R : gmap string value → gmap string value → Prop) n l :
  Sorted R l → Sorted R (apply_limit n l).
Proof.
  unfold apply_limit. destruct (n =? 0); [done|].
  destruct (_ <=? _); [done|]. apply Sorted_take.
Qed.

(** ** Stored cars *)

Definition has_object_id (d : gmap string value) : bool :=
  match d !! "_id" with Some (VObjectId _) => true | _ => false end.

Lemma Car_insert_id d v : Car (<["_id" := v]> d) = Car d.
Proof.
  unfold Car, has_str, has_int, optional.
  by rewrite !lookup_insert_ne.
Qed.

Lemma Car_with_id d n : Car (with_id d n).1 = Car d.
Proof.
  unfold with_id. destruct (d !! "_id"); simpl; [done|]. apply Car_insert_id.
Qed.

Lemma with_id_has_object_id d n :
  d !! "_id" = None → has_object_id (with_id d n).1 = true.
Proof.
  intros H. unfold with_id, has_object_id. rewrite H. simpl.
  by rewrite lookup_insert_eq.
Qed.

Lemma insert_each_docs name ds :
  ∀ w db, w_db w = Some db → forallb doc_encodable ds = true →
    ∃ ids ds' w' db',
      insert_each name ds w = (Ok ids, w') ∧
      w_db w' = Some db' ∧
      collection db' name = collection db name ++ ds' ∧
      (∀ k, k ≠ name → collection db' k = collection db k) ∧
      w_clock w' = w_clock w ∧
      Forall2 (λ d d', ∃ n, d' = (with_id d n).1) ds ds'.
Proof.
  induction ds as [|d ds IH]; intros w db Hdb Henc; simpl.
  - exists [], [], w, db. unfold ret. rewrite app_nil_r. repeat split; auto.
  - apply andb_prop in Henc as [Hd Hds].
    unfold bind at 1. rewrite (insert_one_ok _ _ _ _ Hdb Hd).
    set (w1 := {| w_db := _ |}).
    destruct (IH w1 _ eq_refl Hds)
      as (ids & ds' & w' & db' & Hrun & Hdb' & Hcoll & Hother & Hclock & Hshape).
    unfold bind at 1. rewrite Hrun. unfold ret.
    eexists _, (_ :: ds'), w', db'. split; [reflexivity|].
    split; [done|]. split; [|split; [|split]].
    + rewrite Hcoll, collection_insert_eq, <- app_assoc. reflexivity.
    + intros k Hk. rewrite Hother by done. by apply collection_insert_ne.
    + by rewrite Hclock.
    + constructor; [eauto|done].
Qed.

(** What the seed step leaves: the state it found, or, over a store with
    no cars, the sample cars, each with an id, and nothing else touched. *)
Lemma ensure_seed_result w :
  ∃ w', ensure_seed w = (Ok tt, w') ∧
        (w' = w ∨
         (cars w = [] ∧
          Forall2 (λ d d', ∃ n, d' = (with_id d n).1) SAMPLE_CARS (cars w') ∧
          bookings w' = bookings w)).
Proof.
  destruct (w_db w) as [db|] eqn:Hdb.
  2:{ exists w. split; [by apply ensure_seed_no_db|by left]. }
  destruct (collection db "car") as [|c cs] eqn:Hcars.
  2:{ exists w. split; [|by left]. apply ensure_seed_nonempty.
      unfold cars. by rewrite Hdb, Hcars. }
  destruct (insert_each_docs "car" SAMPLE_CARS w db Hdb sample_cars_encodable)
    as (ids & ds' & w' & db' & Hrun & Hdb' & Hcoll & Hother & _ & Hshape).
  exists w'. split.
  - unfold ensure_seed, bind at 1, db_handle. rewrite Hdb.
    unfold bind at 1, lift. rewrite count_documents_all, Hcars.
    change (Z.of_nat (length []) =? 0) with true. cbv iota.
    rewrite insert_many_each by (done || apply sample_cars_encodable).
    unfold bind. by rewrite Hrun.
  - right. unfold cars, bookings. rewrite Hdb, Hdb', Hcoll, Hcars.
    split; [done|]. split; [done|]. by apply Hother.
Qed.

Lemma sample_cars_conform :
  Forall (λ d, Car d = true ∧ d !! "_id" = None) SAMPLE_CARS.
Proof. repeat constructor; vm_compute; reflexivity. Qed.

Lemma seeded_cars_conform l :
  Forall2 (λ d d', ∃ n, d' = (with_id d n).1) SAMPLE_CARS l →
  Forall (λ d, Car d = true ∧ has_object_id d = true) l.
Proof.
  intros H. pose proof sample_cars_conform as Hs.
  induction H as [|d d' ds ds' [n ->] _ IH]; [constructor|].
  inversion Hs as [|? ? [Hcar Hid] Hs']; subst.
  constructor; [|by apply IH].
  by rewrite Car_with_id, with_id_has_object_id.
Qed.

Lemma ensure_seed_keeps_schema w w' :
  Forall (λ d, Car d = true) (cars w) →
  ensure_seed w = (Ok tt, w') →
  Forall (λ d, Car d = true) (cars w').
Proof.
  intros Hwf Hrun.
  destruct (ensure_seed_result w) as (w1 & Hrun1 & [->|(_ & Hshape & _)]);
    rewrite Hrun in Hrun1; injection Hrun1 as <-; [done|].
  apply seeded_cars_conform in Hshape.
  eapply Forall_impl; [exact Hshape|]. by intros d [H _].
Qed.

(** Under the schema the fields a search sorts by hold no datetime, so
    serialising leaves them as they are. *)
Lemma Car_sort_key_plain d k :
  Car d = true → k ∈ ["price_per_day"; "year"; "rating"] →
  rendered (doc_field d k) = doc_field d k.
Proof.
  unfold Car. rewrite !andb_true_iff.
  intros ((((((((((((_ & _) & _) & Hyear) & _) & _) & _) & _) & _) & Hprice) & _)
            & Hrating) & _) Hk.
  unfold doc_field, has_int, optional in *.
  repeat (apply elem_of_cons in Hk as [->|Hk]); [..|by apply elem_of_nil in Hk].
  - by destruct (d !! "price_per_day") as [[]|].
  - by destruct (d !! "year") as [[]|].
  - by destruct (d !! "rating") as [[]|].
Qed.

Lemma cars_sort_spec_key sort :
  (cars_sort_spec sort).1 ∈ ["price_per_day"; "year"; "rating"].
Proof.
  unfold cars_sort_spec. repeat case_bool_decide; simpl;
    repeat (first [apply list_elem_of_here | apply list_elem_of_further]).
Qed.

Lemma serialize_doc_field d r k :
  serialize_doc d = Ok r → k ≠ "id" → k ≠ "_id" →
  doc_field r k = rendered (doc_field d k).
Proof.
  intros H Hk Hk'. unfold doc_field.
  rewrite (serialize_doc_lookup d r k) by done. by destruct (d !! k).
Qed.

(** The answer of a search over schema-conforming cars is in the order
    the cursor was told to sort by. *)
Lemma list_cars_sorted_by_spec q type brand transmission fuel_type seats
    min_price max_price sort limit w res w' :
  Forall (λ d, Car d = true) (cars w) →
  list_cars q type brand transmission fuel_type seats min_price max_price
    sort limit w = (Ok res, w') →
  Sorted (λ a b, sort_leb [cars_sort_spec sort] a b = true) res.
Proof.
  intros Hwf Hrun.
  apply list_cars_inv in Hrun as [Hseed [[_ ->]|(docs & Hcur & Hser)]];
    [constructor|].
  pose proof (ensure_seed_keeps_schema _ _ Hwf Hseed) as Hwf'.
  apply outcome_map_inv in Hser.
  pose proof (cars_sort_spec_key sort) as Hkey.
  destruct (cars_sort_spec sort) as [k dir] eqn:Hspec. simpl in Hkey.
  assert (Hk : k ≠ "id" ∧ k ≠ "_id").
  { split; intros ->;
      repeat (apply elem_of_cons in Hkey as [Hkey|Hkey]; [discriminate|]);
      by apply elem_of_nil in Hkey. }
  assert (Hfields : Forall2 (λ d c, doc_field c k = doc_field d k) docs res).
  { rewrite Forall_forall in Hwf'.
    assert (Hin : ∀ d, d ∈ docs → d ∈ cars w').
    { intros d Hd. by destruct (cursor_list_elem _ _ _ _ _ _ Hcur Hd). }
    clear Hcur. induction Hser as [|d c docs res Hdc Hser IH]; constructor.
    - rewrite (serialize_doc_field d c k) by tauto.
      apply Car_sort_key_plain; [|done].
      apply Hwf', Hin, list_elem_of_here.
    - apply IH. intros d' Hd'. by apply Hin, list_elem_of_further. }
  apply cursor_list_inv in Hcur as [_ ->].
  eapply (Sorted_Forall2 (λ a b, sort_leb [(k, dir)] a b = true));
    [|exact Hfields|apply apply_limit_sorted, sort_docs_sorted].
  intros a b a' b' Ha Hb. rewrite !sort_leb_single. by rewrite Ha, Hb.
Qed.

Lemma Sorted_weaken {A} (R R' : A → A → Prop) l :
  (∀ a b, R a b → R' a b) → Sorted R l → Sorted R' l.
Proof.
  intros HR. induction 1 as [|x l Hs IH Hhd]; constructor; [done|].
  destruct Hhd; constructor. by apply HR.
Qed.

Lemma sort_leb_asc k a b :
  sort_leb [(k, 1)] a b = bson_leb (doc_field a k) (doc_field b k).
Proof. by rewrite sort_leb_single. Qed.

Lemma sort_leb_desc k a b :
  sort_leb [(k, -1)] a b = bson_leb (doc_field b k) (doc_field a k).
Proof. by rewrite sort_leb_single. Qed.

(** C6.  Over a car collection that conforms to the schema, the answer of
    a search is ordered by the sort key in the store's order of values
    (for numbers, their order as numbers): "price_asc" by
    [price_per_day], each no greater than the next; "price_desc" by
    [price_per_day], each no less than the next; "newest" by [year], each
    no less than the next; and "popular", or any other value, by [rating],
    each no less than the next. *)
Theorem list_cars_sorted
    (q type brand transmission fuel_type : option string) (seats : option Z)
    (min_price max_price : option spec_float) (sort : option string) (limit : Z)
    (w : world) (res : list (gmap string value)) (w' : world) :
  Forall (λ d, Car d = true) (cars w) →
  list_cars q type brand transmission fuel_type seats min_price max_price
    sort limit w = (Ok res, w') →
  (sort = Some "price_asc" →
   Sorted (λ a b, bson_leb (doc_field a "price_per_day")
                    (doc_field b "price_per_day") = true) res) ∧
  (sort = Some "price_desc" →
   Sorted (λ a b, bson_leb (doc_field b "price_per_day")
                    (doc_field a "price_per_day") = true) res) ∧
  (sort = Some "newest" →
   Sorted (λ a b, bson_leb (doc_field b "year") (doc_field a "year") = true) res) ∧
  (sort ≠ Some "price_asc" → sort ≠ Some "price_desc" → sort ≠ Some "newest" →
   Sorted (λ a b, bson_leb (doc_field b "rating") (doc_field a "rating") = true) res).
Proof.
  intros Hwf Hrun.
  pose proof (list_cars_sorted_by_spec _ _ _ _ _ _ _ _ _ _ _ _ _ Hwf Hrun) as Hs.
  unfold cars_sort_spec in Hs.
  split; [|split; [|split]].
  - intros E. rewrite bool_decide_eq_true_2 in Hs by done. cbv iota in Hs.
    eapply Sorted_weaken; [|exact Hs]. intros a b. cbv beta. by rewrite ?sort_leb_asc, ?sort_leb_desc.
  - intros E. rewrite bool_decide_eq_false_2 in Hs by (rewrite E; discriminate).
    rewrite bool_decide_eq_true_2 in Hs by done. cbv iota in Hs.
    eapply Sorted_weaken; [|exact Hs]. intros a b. cbv beta. by rewrite ?sort_leb_asc, ?sort_leb_desc.
  - intros E. rewrite !bool_decide_eq_false_2 in Hs by (rewrite E; discriminate).
    rewrite bool_decide_eq_true_2 in Hs by done. cbv iota in Hs.
    eapply Sorted_weaken; [|exact Hs]. intros a b. cbv beta. by rewrite ?sort_leb_asc, ?sort_leb_desc.
  - intros E1 E2 E3. rewrite !bool_decide_eq_false_2 in Hs by done.
    cbv iota in Hs.
    eapply Sorted_weaken; [|exact Hs]. intros a b. cbv beta. by rewrite ?sort_leb_asc, ?sort_leb_desc.
Qed.

Lemma ensure_seed_world_empty : ensure_seed world_empty = (Ok tt, world_seeded).
Proof.
  destruct (ensure_seed_result world_empty) as (w' & H & _).
  unfold world_seeded. by rewrite H.
Qed.

Lemma world_seeded_schema : Forall (λ d, Car d = true) (cars world_seeded).
Proof.
  apply (ensure_seed_keeps_schema world_empty); [|apply ensure_seed_world_empty].
  constructor.
Qed.

Definition search_price_asc : outcome (list (gmap string value)) * world :=
  list_cars None None None None None None None None (Some "price_asc") 50
    world_seeded.

Lemma search_price_asc_ok :
  search_price_asc = (Ok (found search_price_asc), world_seeded).
Proof. vm_cast_no_check (eq_refl search_price_asc). Qed.

Lemma list_cars_sorted_witness :
  Sorted (λ a b, bson_leb (doc_field a "price_per_day")
                   (doc_field b "price_per_day") = true)
    (found search_price_asc).
Proof.
  apply (list_cars_sorted None None None None None None None None
           (Some "price_asc") 50 world_seeded (found search_price_asc)
           world_seeded world_seeded_schema search_price_asc_ok).
  reflexivity.
Defined.

Example search_price_asc_prices :
  map (λ c, doc_field c "price_per_day") (found search_price_asc) =
  [VFloat (F64.of_Z 190); VFloat (F64.of_Z 280); VFloat (F64.of_Z 320)].
Proof. vm_compute. reflexivity. Qed.

(** ** What the model reads of a search *)

Definition car_fields : list string :=
  ["title"; "brand"; "model"; "year"; "type"; "transmission"; "fuel_type";
   "seats"; "price_per_day"; "rating"].

Lemma Car_field_scalar d k :
  Car d = true → In k car_fields → is_array (doc_field d k) = false.
Proof.
  unfold Car. rewrite !andb_true_iff.
  intros ((((((((((((Hti & Hbr) & Hmo) & Hye) & Hty) & Htr) & Hfu) & Hse) & _)
             & Hpr) & _) & Hra) & _) Hk.
  unfold doc_field, has_str, has_int, optional in *.
  simpl in Hk.
  repeat (destruct Hk as [<-|Hk]); [..|done].
  - by destruct (d !! "title") as [[]|].
  - by destruct (d !! "brand") as [[]|].
  - by destruct (d !! "model") as [[]|].
  - by destruct (d !! "year") as [[]|].
  - by destruct (d !! "type") as [[]|].
  - by destruct (d !! "transmission") as [[]|].
  - by destruct (d !! "fuel_type") as [[]|].
  - by destruct (d !! "seats") as [[]|].
  - by destruct (d !! "price_per_day") as [[]|].
  - by destruct (d !! "rating") as [[]|].
Qed.

Lemma scalar_at_fields d ks :
  Car d = true → (∀ k, In k ks → In k car_fields) → scalar_at ks d = true.
Proof.
  intros Hcar Hks. unfold scalar_at. apply forallb_forall. intros k Hk.
  by rewrite (Car_field_scalar d k Hcar (Hks k Hk)).
Qed.

(** The texts a search for [q] is matched against. *)
Definition search_fields : list string := ["title"; "brand"; "model"].

(** The search text is one the model of the store reads: left out, empty,
    or an ASCII pattern of the fragment, over cars whose title, brand and
    model are ASCII. *)
Definition search_modelled (q : option string) (coll : list (gmap string value))
  : bool :=
  match q with
  | Some s =>
      String.eqb s "" ||
      is_cstring s && regex_supported s "i" && forallb (ascii_at search_fields) coll
  | None => true
  end.

(** The number of seats asked for is one the driver can send. *)
Definition seats_encodable (seats : option Z) : bool :=
  match seats with Some n => value_encodable (VInt n) | None => true end.

Lemma when_truthy_cases {A} (inj : A → value) (o : option A) (c : A → clause) :
  when_truthy inj o c = [] ∨
  ∃ a, o = Some a ∧ py_truthy (inj a) = true ∧ when_truthy inj o c = [c a].
Proof.
  unfold when_truthy. destruct o as [a|]; [|by left].
  destruct (py_truthy (inj a)) eqn:E; [right; eauto|by left].
Qed.

Definition q_clause (q : string) : clause :=
  Or [ [("title", Operators [OpRegex q "i"])];
       [("brand", Operators [OpRegex q "i"])];
       [("model", Operators [OpRegex q "i"])] ].

Lemma search_modelled_truthy s coll :
  search_modelled (Some s) coll = true → py_truthy (VStr s) = true →
  is_cstring s = true ∧ regex_supported s "i" = true ∧
  forallb (ascii_at search_fields) coll = true.
Proof.
  simpl. intros H Hs. apply negb_true_iff in Hs. rewrite Hs in H. simpl in H.
  rewrite !andb_true_iff in H. tauto.
Qed.

Lemma cars_filter_supported q type brand transmission fuel_type seats
    min_price max_price coll :
  search_modelled q coll = true →
  forallb clause_supported
    (cars_filter q type brand transmission fuel_type seats min_price max_price)
  = true.
Proof.
  intros Hq. unfold cars_filter. rewrite !forallb_app, !andb_true_iff.
  repeat split.
  - destruct (when_truthy_cases VStr q q_clause) as [E|(s & -> & Hs & E)];
      unfold q_clause in E; rewrite E; [done|].
    apply search_modelled_truthy in Hq as (_ & Hre & _); [|done].
    simpl. by rewrite Hre.
  - by destruct (when_truthy_cases VStr type (λ x, Field "type" (Equals (VStr x))))
      as [->|(s & -> & _ & ->)].
  - by destruct (when_truthy_cases VStr brand (λ x, Field "brand" (Equals (VStr x))))
      as [->|(s & -> & _ & ->)].
  - by destruct (when_truthy_cases VStr transmission
                   (λ x, Field "transmission" (Equals (VStr x))))
      as [->|(s & -> & _ & ->)].
  - by destruct (when_truthy_cases VStr fuel_type
                   (λ x, Field "fuel_type" (Equals (VStr x))))
      as [->|(s & -> & _ & ->)].
  - by destruct (when_truthy_cases VInt seats (λ x, Field "seats" (Equals (VInt x))))
      as [->|(s & -> & _ & ->)].
  - by destruct min_price, max_price.
Qed.

Lemma cars_filter_fields q type brand transmission fuel_type seats
    min_price max_price k :
  In k (concat (map clause_fields
          (cars_filter q type brand transmission fuel_type seats
             min_price max_price))) →
  In k car_fields.
Proof.
  unfold cars_filter. rewrite !map_app, !concat_app, !in_app_iff.
  intros [H|[H|[H|[H|[H|[H|H]]]]]]; revert H.
  - destruct (when_truthy_cases VStr q q_clause) as [E|(s & -> & _ & E)];
      unfold q_clause in E; rewrite E; simpl; [done|].
    unfold car_fields. simpl. tauto.
  - destruct (when_truthy_cases VStr type (λ x, Field "type" (Equals (VStr x))))
      as [->|(s & -> & _ & ->)]; simpl; [done|]. unfold car_fields. simpl. tauto.
  - destruct (when_truthy_cases VStr brand (λ x, Field "brand" (Equals (VStr x))))
      as [->|(s & -> & _ & ->)]; simpl; [done|]. unfold car_fields. simpl. tauto.
  - destruct (when_truthy_cases VStr transmission
                (λ x, Field "transmission" (Equals (VStr x))))
      as [->|(s & -> & _ & ->)]; simpl; [done|]. unfold car_fields. simpl. tauto.
  - destruct (when_truthy_cases VStr fuel_type
                (λ x, Field "fuel_type" (Equals (VStr x))))
      as [->|(s & -> & _ & ->)]; simpl; [done|]. unfold car_fields. simpl. tauto.
  - destruct (when_truthy_cases VInt seats (λ x, Field "seats" (Equals (VInt x))))
      as [->|(s & -> & _ & ->)]; simpl; [done|]. unfold car_fields. simpl. tauto.
  - destruct min_price, max_price; simpl; unfold car_fields; simpl; tauto.
Qed.

(** Only the clause of [q] matches a pattern. *)
Lemma cars_filter_regex_fields q type brand transmission fuel_type seats
    min_price max_price :
  concat (map clause_regex_fields
            (cars_filter q type brand transmission fuel_type seats
               min_price max_price)) =
  concat (map clause_regex_fields (when_truthy VStr q q_clause)).
Proof.
  unfold cars_filter. fold q_clause. rewrite !map_app, !concat_app.
  assert (Hnone : ∀ (o : option string) k,
            concat (map clause_regex_fields
                      (when_truthy VStr o (λ x, Field k (Equals (VStr x))))) = []).
  { intros o k.
    destruct (when_truthy_cases VStr o (λ x, Field k (Equals (VStr x))))
      as [->|(s & -> & _ & ->)]; reflexivity. }
  rewrite !Hnone.
  assert (Hseats : concat (map clause_regex_fields
                      (when_truthy VInt seats (λ x, Field "seats" (Equals (VInt x))))) = []).
  { destruct (when_truthy_cases VInt seats (λ x, Field "seats" (Equals (VInt x))))
      as [->|(s & -> & _ & ->)]; reflexivity. }
  rewrite Hseats. simpl.
  assert (Hprice : concat (map clause_regex_fields
                      match min_price, max_price with
                      | None, None => []
                      | _, _ => [Field "price_per_day"
                                   (Operators (price_cond min_price max_price))]
                      end) = []).
  { by destruct min_price, max_price. }
  rewrite Hprice. by rewrite app_nil_r.
Qed.

Lemma cars_query_supported q type brand transmission fuel_type seats
    min_price max_price sort coll :
  Forall (λ d, Car d = true) coll →
  search_modelled q coll = true →
  query_supported
    (cars_filter q type brand transmission fuel_type seats min_price max_price)
    [(cars_sort_spec sort).1] coll = true.
Proof.
  intros Hwf Hq. unfold query_supported.
  rewrite (cars_filter_supported _ _ _ _ _ _ _ _ coll) by done. simpl.
  apply andb_true_iff. split.
  - apply forallb_forall. intros d Hd.
    rewrite Forall_forall in Hwf.
    apply scalar_at_fields; [by apply Hwf, list_elem_of_In|].
    intros k [Hk|Hk]%in_app_iff; [by apply cars_filter_fields in Hk|].
    destruct Hk as [<-|[]].
    pose proof (cars_sort_spec_key sort) as Hs.
    repeat (apply elem_of_cons in Hs as [->|Hs]); [..|by apply elem_of_nil in Hs];
      unfold car_fields; simpl; tauto.
  - rewrite cars_filter_regex_fields.
    destruct (when_truthy_cases VStr q q_clause) as [->|(s & -> & Hs & ->)].
    + apply forallb_true.
    + by apply search_modelled_truthy in Hq as (_ & _ & Hascii).
Qed.

Lemma cars_filter_encodable q type brand transmission fuel_type seats
    min_price max_price coll :
  search_modelled q coll = true →
  seats_encodable seats = true →
  query_encodable
    (cars_filter q type brand transmission fuel_type seats min_price max_price)
  = true.
Proof.
  intros Hq Hseats. unfold query_encodable, cars_filter.
  rewrite !forallb_app, !andb_true_iff.
  repeat split.
  - destruct (when_truthy_cases VStr q q_clause) as [E|(s & -> & Hs & E)];
      unfold q_clause in E; rewrite E; [done|].
    apply search_modelled_truthy in Hq as (Hc & _ & _); [|done].
    simpl. by rewrite Hc.
  - by destruct (when_truthy_cases VStr type (λ x, Field "type" (Equals (VStr x))))
      as [->|(s & -> & _ & ->)].
  - by destruct (when_truthy_cases VStr brand (λ x, Field "brand" (Equals (VStr x))))
      as [->|(s & -> & _ & ->)].
  - by destruct (when_truthy_cases VStr transmission
                   (λ x, Field "transmission" (Equals (VStr x))))
      as [->|(s & -> & _ & ->)].
  - by destruct (when_truthy_cases VStr fuel_type
                   (λ x, Field "fuel_type" (Equals (VStr x))))
      as [->|(s & -> & _ & ->)].
  - destruct (when_truthy_cases VInt seats (λ x, Field "seats" (Equals (VInt x))))
      as [->|(s & -> & _ & ->)]; [done|].
    simpl in *. by rewrite Hseats.
  - by destruct min_price, max_price.
Qed.

(** A number of seats beyond eight bytes makes a filter the driver cannot
    send. *)
Lemma cars_filter_overflow q type brand transmission fuel_type n
    min_price max_price :
  value_encodable (VInt n) = false →
  query_encodable
    (cars_filter q type brand transmission fuel_type (Some n) min_price max_price)
  = false.
Proof.
  intros Hn. unfold query_encodable, cars_filter. rewrite !forallb_app.
  assert (Hs : forallb clause_encodable
                 (when_truthy VInt (Some n) (λ x, Field "seats" (Equals (VInt x))))
               = false).
  { unfold when_truthy.
    destruct (py_truthy (VInt n)) eqn:Ht.
    - simpl in *. by rewrite Hn.
    - simpl in Ht. apply negb_false_iff, Z.eqb_eq in Ht. by subst n. }
  rewrite Hs. by rewrite !andb_false_r.
Qed.

(** What the cursor of a search yields over a collection the model
    reads. *)
Lemma cars_cursor_list q type brand transmission fuel_type seats
    min_price max_price sort limit coll :
  Forall (λ d, Car d = true) coll →
  search_modelled q coll = true →
  seats_encodable seats = true →
  limit_encodable limit = true →
  cursor_list
    (cursor_sort [cars_sort_spec sort]
       (cursor_limit limit
          (find (cars_filter q type brand transmission fuel_type seats
                   min_price max_price) coll))) =
  Ok (apply_limit limit
        (sort_docs [cars_sort_spec sort]
           (List.filter
              (matches (cars_filter q type brand transmission fuel_type seats
                          min_price max_price)) coll))).
Proof.
  intros Hwf Hq Hseats Hlimit. unfold cursor_list. simpl.
  rewrite (cars_filter_encodable _ _ _ _ _ _ _ _ coll), Hlimit by done. simpl.
  by rewrite cars_query_supported.
Qed.

(** The seed step keeps what is assumed of the car collection. *)
Lemma seeded_cars_keep (P : gmap string value → bool) l :
  (∀ d n, P (with_id d n).1 = P d) →
  forallb P SAMPLE_CARS = true →
  Forall2 (λ d d', ∃ n, d' = (with_id d n).1) SAMPLE_CARS l →
  forallb P l = true.
Proof.
  intros Hid Hs H. induction H as [|d d' ds ds' [n ->] _ IH]; [done|].
  simpl in *. apply andb_prop in Hs as [Hd Hds].
  by rewrite Hid, Hd, IH.
Qed.

Lemma ascii_at_with_id d n :
  ascii_at search_fields (with_id d n).1 = ascii_at search_fields d.
Proof.
  unfold with_id. destruct (d !! "_id"); simpl; [done|].
  unfold ascii_at, doc_field. simpl. by rewrite !lookup_insert_ne.
Qed.

Lemma sample_cars_ascii : forallb (ascii_at search_fields) SAMPLE_CARS = true.
Proof. vm_compute. reflexivity. Qed.

Lemma ensure_seed_keeps_search q w w' :
  search_modelled q (cars w) = true →
  ensure_seed w = (Ok tt, w') →
  search_modelled q (cars w') = true.
Proof.
  intros Hq Hrun.
  destruct (ensure_seed_result w) as (w1 & Hrun1 & [->|(_ & Hshape & _)]);
    rewrite Hrun in Hrun1; injection Hrun1 as <-; [done|].
  destruct q as [s|]; [|done]. simpl in *.
  rewrite (seeded_cars_keep _ _ ascii_at_with_id sample_cars_ascii Hshape).
  destruct (String.eqb s ""); [done|]. simpl in *.
  rewrite !andb_true_iff in Hq. destruct Hq as [[-> ->] _]. done.
Qed.

Lemma ensure_seed_keeps_ids w w' :
  Forall (λ d, has_object_id d = true) (cars w) →
  ensure_seed w = (Ok tt, w') →
  Forall (λ d, has_object_id d = true) (cars w').
Proof.
  intros Hwf Hrun.
  destruct (ensure_seed_result w) as (w1 & Hrun1 & [->|(_ & Hshape & _)]);
    rewrite Hrun in Hrun1; injection Hrun1 as <-; [done|].
  apply seeded_cars_conform in Hshape.
  eapply Forall_impl; [exact Hshape|]. by intros d [_ H].
Qed.

Lemma ensure_seed_keeps_db w w' :
  is_Some (w_db w) → ensure_seed w = (Ok tt, w') → is_Some (w_db w').
Proof.
  intros Hdb Hrun.
  destruct (ensure_seed_result w) as (w1 & Hrun1 & [->|(_ & Hshape & _)]);
    rewrite Hrun in Hrun1; injection Hrun1 as <-; [done|].
  unfold cars in Hshape. destruct (w_db w'); [done|].
  apply Forall2_length in Hshape. discriminate Hshape.
Qed.

(** ** Every car returned meets the filters *)

Lemma serialize_doc_stored d :
  has_object_id d = true → ∃ r, serialize_doc d = Ok r.
Proof.
  unfold has_object_id. destruct (d !! "_id") as [[| | | | |o| | |]|] eqn:Hid;
    try discriminate.
  intros _. unfold serialize_doc.
  rewrite (size_nonzero_of_lookup _ _ _ Hid), Hid. simpl. eauto.
Qed.

Lemma outcome_map_ok {A B} (f : A → outcome B) l :
  Forall (λ x, ∃ y, f x = Ok y) l → ∃ r, outcome_map f l = Ok r.
Proof.
  induction 1 as [|x l [y Hy] _ [r IH]]; simpl; [eauto|].
  rewrite Hy, IH. simpl. eauto.
Qed.

(** Over stored cars, and with parameters the model reads and the driver
    can send, the search answers. *)
Lemma list_cars_answers q type brand transmission fuel_type seats
    min_price max_price sort limit w :
  Forall (λ d, Car d = true) (cars w) →
  Forall (λ d, has_object_id d = true) (cars w) →
  search_modelled q (cars w) = true →
  seats_encodable seats = true →
  limit_encodable limit = true →
  ∃ res w',
    list_cars q type brand transmission fuel_type seats min_price max_price
      sort limit w = (Ok res, w').
Proof.
  intros Hwf Hids Hq Hseats Hlimit.
  destruct (ensure_seed_result w) as (w' & Hseed & _).
  pose proof (ensure_seed_keeps_schema _ _ Hwf Hseed) as Hwf'.
  pose proof (ensure_seed_keeps_ids _ _ Hids Hseed) as Hids'.
  pose proof (ensure_seed_keeps_search _ _ _ Hq Hseed) as Hq'.
  unfold list_cars, bind at 1. rewrite Hseed.
  unfold bind at 1, db_handle. unfold cars in Hwf', Hids', Hq'.
  destruct (w_db w') as [db|]; [|by eexists _, _].
  unfold bind, lift. rewrite cars_cursor_list by done.
  set (docs := apply_limit _ _).
  destruct (outcome_map_ok serialize_doc docs) as [res Hres].
  { apply Forall_forall. intros d Hd. apply serialize_doc_stored.
    unfold docs in Hd. apply apply_limit_elem in Hd.
    rewrite sort_docs_perm in Hd.
    apply list_elem_of_In, filter_In in Hd as [Hd _].
    rewrite Forall_forall in Hids'. by apply Hids', list_elem_of_In. }
  rewrite Hres. by eexists _, _.
Qed.

(** C5, amended.  Over a collection of stored cars (documents that
    conform to the [Car] schema and carry their ObjectId), with [seats]
    and [limit] within eight bytes and a [q] that is left out, empty, or
    an ASCII text made of ordinary characters, the wildcard [.] and
    escaped punctuation (the titles, brands and models being ASCII too),
    the search answers, and every car it returns meets every filter that
    was supplied with a truthy value, all at once: [type], [brand],
    [transmission] and [fuel_type] hold the requested text, [seats] holds
    the requested non-zero number, [price_per_day] is a number within the
    bounds given, and [q], read as a regular expression, is found without
    regard to case in the title, the brand or the model (for a [q] free of
    special characters: [q] is a substring of it, case aside).  An empty
    text and [seats = 0] count as not supplied. *)
Theorem list_cars_results_meet_filters
    (q type brand transmission fuel_type : option string) (seats : option Z)
    (min_price max_price : option spec_float) (sort : option string) (limit : Z)
    (w : world) :
  Forall (λ d, Car d = true) (cars w) →
  Forall (λ d, has_object_id d = true) (cars w) →
  search_modelled q (cars w) = true →
  seats_encodable seats = true →
  limit_encodable limit = true →
  ∃ res w',
    list_cars q type brand transmission fuel_type seats min_price max_price
      sort limit w = (Ok res, w') ∧
    ∀ c, c ∈ res →
      (∀ s, q = Some s → s ≠ "" →
         ∃ k t, k ∈ ["title"; "brand"; "model"] ∧ c !! k = Some (VStr t) ∧
                regex_search s "i" t = true ∧
                (plain_text s = true → ci_substring s t = true)) ∧
      (∀ s, type = Some s → s ≠ "" → c !! "type" = Some (VStr s)) ∧
      (∀ s, brand = Some s → s ≠ "" → c !! "brand" = Some (VStr s)) ∧
      (∀ s, transmission = Some s → s ≠ "" → c !! "transmission" = Some (VStr s)) ∧
      (∀ s, fuel_type = Some s → s ≠ "" → c !! "fuel_type" = Some (VStr s)) ∧
      (∀ n, seats = Some n → n ≠ 0 →
         ∃ v, c !! "seats" = Some v ∧ bson_eqb v (VInt n) = true) ∧
      (∀ lo, min_price = Some lo →
         ∃ v, c !! "price_per_day" = Some v ∧ in_range_leb (VFloat lo) v = true) ∧
      (∀ hi, max_price = Some hi →
         ∃ v, c !! "price_per_day" = Some v ∧ in_range_leb v (VFloat hi) = true).
Proof.
  intros Hwf Hids Hq Hseats Hlimit.
  destruct (list_cars_answers q type brand transmission fuel_type seats
              min_price max_price sort limit w Hwf Hids Hq Hseats Hlimit)
    as (res & w' & Hrun).
  exists res, w'. split; [exact Hrun|].
  intros c Hc. exact (list_cars_sound _ _ _ _ _ _ _ _ _ _ _ _ _ _ Hrun Hc).
Qed.

Lemma world_seeded_ids : Forall (λ d, has_object_id d = true) (cars world_seeded).
Proof.
  apply (ensure_seed_keeps_ids world_empty); [|apply ensure_seed_world_empty].
  constructor.
Qed.

(** A search with every filter set, which the Trailhawk X alone meets. *)
Definition search_trailhawk : outcome (list (gmap string value)) * world :=
  list_cars (Some "hawk") (Some "suv") (Some "Jeep") (Some "automatic")
    (Some "hybrid") (Some 7) (Some (F64.of_Z 100)) (Some (F64.of_Z 200))
    (Some "price_asc") 50 world_seeded.

Definition trailhawk : gmap string value :=
  default ∅ (head (found search_trailhawk)).

Lemma search_trailhawk_ok :
  search_trailhawk = (Ok [trailhawk], world_seeded).
Proof. vm_cast_no_check (eq_refl search_trailhawk). Qed.

Lemma search_trailhawk_modelled :
  search_modelled (Some "hawk") (cars world_seeded) = true.
Proof. vm_cast_no_check (eq_refl true). Qed.

Lemma list_cars_results_meet_filters_witness :
  search_trailhawk = (Ok [trailhawk], world_seeded) ∧
  trailhawk !! "title" = Some (VStr "Trailhawk X") ∧
  trailhawk !! "type" = Some (VStr "suv") ∧
  trailhawk !! "brand" = Some (VStr "Jeep") ∧
  (∃ v, trailhawk !! "seats" = Some v ∧ bson_eqb v (VInt 7) = true) ∧
  (∃ v, trailhawk !! "price_per_day" = Some v ∧
        in_range_leb (VFloat (F64.of_Z 100)) v = true) ∧
  (∃ k t, k ∈ ["title"; "brand"; "model"] ∧ trailhawk !! k = Some (VStr t) ∧
          regex_search "hawk" "i" t = true ∧
          (plain_text "hawk" = true → ci_substring "hawk" t = true)).
Proof.
  split; [exact search_trailhawk_ok|].
  split; [vm_compute; reflexivity|].
  destruct (list_cars_results_meet_filters
              (Some "hawk") (Some "suv") (Some "Jeep") (Some "automatic")
              (Some "hybrid") (Some 7) (Some (F64.of_Z 100)) (Some (F64.of_Z 200))
              (Some "price_asc") 50 world_seeded
              world_seeded_schema world_seeded_ids search_trailhawk_modelled
              eq_refl eq_refl)
    as (res & w' & Hrun & Hall).
  assert (Hres : res = [trailhawk]).
  { pose proof search_trailhawk_ok as Hok. unfold search_trailhawk in Hok.
    rewrite Hrun in Hok. exact (f_equal found Hok). }
  destruct (Hall trailhawk) as (Hq & Hty & Hbr & _ & _ & Hse & Hlo & _).
  { rewrite Hres. apply list_elem_of_here. }
  split; [by apply Hty|]. split; [by apply Hbr|].
  split; [by apply Hse|]. split; [by apply Hlo|]. by apply Hq.
Defined.

(** ** Filters that nothing meets *)

Lemma bson_eqb_int z n : bson_eqb (VInt z) (VInt n) = (z =? n).
Proof.
  unfold bson_eqb, bson_compare. simpl. rewrite !Z.mul_1_r.
  destruct (Z.compare_spec z n), (Z.eqb_spec z n); (done || lia).
Qed.

Lemma seats_out_of_range_no_match q type brand transmission fuel_type n
    min_price max_price d :
  Car d = true → n ≠ 0 → n < 1 ∨ 9 < n →
  matches (cars_filter q type brand transmission fuel_type (Some n)
             min_price max_price) d = false.
Proof.
  intros Hcar Hn Hrange. unfold cars_filter. rewrite !matches_app.
  assert (Hs : matches (when_truthy VInt (Some n)
                          (λ x, Field "seats" (Equals (VInt x)))) d = false).
  { unfold when_truthy. simpl. apply Z.eqb_neq in Hn. rewrite Hn. simpl.
    rewrite andb_true_r.
    revert Hcar. unfold Car. rewrite !andb_true_iff.
    intros ((((((_ & Hse) & _) & _) & _) & _) & _).
    unfold has_int, doc_field in *.
    destruct (d !! "seats") as [[| |z| | | | | |]|]; try discriminate. simpl.
    rewrite bson_eqb_int. apply andb_prop in Hse as [H1 H9].
    apply Z.leb_le in H1, H9. apply Z.eqb_neq. lia. }
  rewrite Hs. by rewrite !andb_false_r.
Qed.

Lemma filter_none {A} (f : A → bool) l :
  (∀ x, In x l → f x = false) → List.filter f l = [].
Proof.
  induction l as [|x l IH]; intros H; simpl; [done|].
  rewrite (H x) by (by left). apply IH. intros y Hy. apply H. by right.
Qed.

Lemma apply_limit_nil n : apply_limit n [] = [].
Proof.
  unfold apply_limit. destruct (n =? 0); [done|].
  destruct (_ <=? _); [done|]. by rewrite take_nil.
Qed.

(** The search over the seeded store for cars with no seat at all. *)
Lemma found_seats_zero_length : length (found search_seats_zero) = 3%nat.
Proof. vm_compute. reflexivity. Qed.

(** C7, as stated, fails: every stored car has between one and nine
    seats, so none has zero, and yet the search for [seats = 0] answers
    with all three cars. *)
Lemma list_cars_seats_zero_counterexample :
  Forall (λ d, has_int (Some 1) (Some 9) d "seats" = true) (cars world_seeded) ∧
  ∃ res w',
    list_cars None None None None None (Some 0) None None (Some "popular") 50
      world_seeded = (Ok res, w') ∧
    length res = 3%nat.
Proof.
  split.
  - eapply Forall_impl; [apply world_seeded_schema|].
    intros d. unfold Car. rewrite !andb_true_iff. tauto.
  - exists (found search_seats_zero), world_seeded.
    split; [exact search_seats_zero_ok|exact found_seats_zero_length].
Qed.

(** C7, amended.  Over a car collection that conforms to the schema, with
    a [q] the model of the store reads and a limit the driver can send, a
    [seats] value other than zero that lies outside the range 1 to 9
    yields the empty answer and no error as long as it fits in eight
    bytes, whatever the other parameters; beyond eight bytes, and with the
    store there, the driver cannot send the filter and the search fails
    with an exception that nothing catches; [seats = 0] is taken as no
    seat filter at all, and the search does what it does without one. *)
Theorem list_cars_seats_misuse
    (q type brand transmission fuel_type : option string)
    (min_price max_price : option spec_float) (sort : option string)
    (limit : Z) (w : world) (n : Z) :
  Forall (λ d, Car d = true) (cars w) →
  search_modelled q (cars w) = true →
  limit_encodable limit = true →
  n ≠ 0 →
  n < 1 ∨ 9 < n →
  (- 2 ^ 63 <= n < 2 ^ 63 →
   (list_cars q type brand transmission fuel_type (Some n) min_price max_price
      sort limit w).1 = Ok []) ∧
  (n < - 2 ^ 63 ∨ 2 ^ 63 <= n → is_Some (w_db w) →
   (list_cars q type brand transmission fuel_type (Some n) min_price max_price
      sort limit w).1 = Fault) ∧
  list_cars q type brand transmission fuel_type (Some 0) min_price max_price
    sort limit w =
  list_cars q type brand transmission fuel_type None min_price max_price
    sort limit w.
Proof.
  intros Hwf Hq Hlimit Hn Hrange.
  destruct (ensure_seed_result w) as (w' & Hseed & _).
  pose proof (ensure_seed_keeps_schema _ _ Hwf Hseed) as Hwf'.
  pose proof (ensure_seed_keeps_search _ _ _ Hq Hseed) as Hq'.
  split; [|split; [|reflexivity]].
  - intros Hfit.
    unfold list_cars, bind at 1. rewrite Hseed.
    unfold bind at 1, db_handle. unfold cars in Hwf', Hq'.
    destruct (w_db w') as [db|]; [|reflexivity].
    unfold bind, lift.
    rewrite cars_cursor_list; [|done|done| |done].
    2:{ simpl. apply andb_true_iff. split; [apply Z.leb_le|apply Z.ltb_lt]; lia. }
    rewrite filter_none; [by rewrite apply_limit_nil|].
    intros d Hd. apply seats_out_of_range_no_match; [|done..].
    rewrite Forall_forall in Hwf'. by apply Hwf', list_elem_of_In.
  - intros Hbig Hdb.
    pose proof (ensure_seed_keeps_db _ _ Hdb Hseed) as [db Hdb'].
    unfold list_cars, bind at 1. rewrite Hseed.
    unfold bind at 1, db_handle. rewrite Hdb'.
    unfold bind, lift, cursor_list. simpl.
    rewrite cars_filter_overflow; [done|].
    simpl. apply andb_false_iff.
    destruct Hbig; [left; apply Z.leb_gt|right; apply Z.ltb_ge]; lia.
Qed.

Lemma list_cars_seats_misuse_witness :
  ((list_cars None None None None None (Some 10) None None (Some "popular") 50
      world_seeded).1 = Ok []) ∧
  ((list_cars None None None None None (Some (2 ^ 63)) None None (Some "popular") 50
      world_seeded).1 = Fault) ∧
  list_cars None None None None None (Some 0) None None (Some "popular") 50
    world_seeded =
  list_cars None None None None None None None None (Some "popular") 50
    world_seeded.
Proof.
  destruct (list_cars_seats_misuse None None None None None None None
              (Some "popular") 50 world_seeded 10 world_seeded_schema
              eq_refl eq_refl ltac:(discriminate) (or_intror eq_refl))
    as (Hfit & _ & Hzero).
  destruct (list_cars_seats_misuse None None None None None None None
              (Some "popular") 50 world_seeded (2 ^ 63) world_seeded_schema
              eq_refl eq_refl ltac:(discriminate) (or_intror eq_refl))
    as (_ & Hbig & _).
  split; [apply Hfit; split; [discriminate|reflexivity]|].
  split; [|exact Hzero].
  apply Hbig; [right; discriminate|apply world_seeded_db].
Defined.
